(** * ulauncher-better-file-browser: the fuzzy matcher and the query handler

    A shallow embedding of [main.py]: [matches_filter],
    [PreferencesEventListener.on_event] and
    [KeywordQueryEventListener.on_event], with the Python primitives they
    call ([str] methods, [pathlib], [sorted], [int]).

    Text model.  A Python [str] is a list of code points.  The embedding
    covers two pages of 256 code points each: U+0000-U+00FF (Latin-1)
    and U+0300-U+03FF (the combining marks, Greek and Coptic).  Both are
    closed under [str.lower], and the second holds the one character
    whose lower-casing depends on its neighbours, the capital sigma.
    The tables of this section are those of Python 3.11 (Unicode 14) on
    these two pages. *)

From Stdlib Require Import List Ascii String Bool Arith ZArith Lia.
From Stdlib Require Import Sorting.Sorted Sorting.Permutation.
Import ListNotations.

Local Open Scope list_scope.

(** ** Python strings *)

(** A code point: [Latin low] is U+0000 + [low], [Greek low] is
    U+0300 + [low]. *)
Inductive char : Type :=
| Latin (low : ascii)
| Greek (low : ascii).

Coercion Latin : ascii >-> char.
Bind Scope char_scope with char.

Definition pystr := list char.

Definition py (s : string) : pystr := map Latin (list_ascii_of_string s).

Module PyStr.

Definition code (c : char) : nat :=
  match c with
  | Latin low => nat_of_ascii low
  | Greek low => 768 + nat_of_ascii low
  end.

Definition char_eqb (a b : char) : bool :=
  match a, b with
  | Latin x, Latin y => Ascii.eqb x y
  | Greek x, Greek y => Ascii.eqb x y
  | _, _ => false
  end.

(** U+03A3, U+03C3 and U+03C2. *)
Definition CAPITAL_SIGMA : char := Greek "163".
Definition SMALL_SIGMA : char := Greek "195".
Definition FINAL_SIGMA : char := Greek "194".

Definition between (first last n : nat) : bool := (first <=? n) && (n <=? last).

(** The lower-case mapping of one code point, out of context.  Latin-1:
    A-Z and 0xC0-0xDE without the multiplication sign 0xD7 move up by
    32.  Greek page, by low byte: 0x91-0xA1 and 0xA3-0xAB move up by 32
    (the capital sigma to the small sigma), the accented capitals
    0x86, 0x88-0x8A, 0x8C, 0x8E-0x8F to 0xAC-0xCE, the archaic and
    Coptic capitals to their neighbours, and the rest stays. *)
Definition lower_char (c : char) : char :=
  match c with
  | Latin low =>
      let n := nat_of_ascii low in
      if ((65 <=? n) && (n <=? 90))
         || ((192 <=? n) && (n <=? 222) && negb (n =? 215))
      then Latin (ascii_of_nat (n + 32))
      else c
  | Greek low =>
      let n := nat_of_ascii low in
      if between 145 161 n || between 163 171 n
      then Greek (ascii_of_nat (n + 32))
      else if n =? 134 then Greek (ascii_of_nat (n + 38))
      else if between 136 138 n then Greek (ascii_of_nat (n + 37))
      else if n =? 140 then Greek (ascii_of_nat (n + 64))
      else if between 142 143 n then Greek (ascii_of_nat (n + 63))
      else if (n =? 112) || (n =? 114) || (n =? 118) || (n =? 247)
              || (n =? 250) || (between 216 238 n && Nat.even n)
      then Greek (ascii_of_nat (n + 1))
      else if n =? 127 then Greek (ascii_of_nat (n + 116))
      else if n =? 207 then Greek (ascii_of_nat (n + 8))
      else if n =? 244 then Greek (ascii_of_nat (n - 60))
      else if n =? 249 then Greek (ascii_of_nat (n - 7))
      else if between 253 255 n then Greek (ascii_of_nat (n - 130))
      else c
  end.

(** The property Case_Ignorable: the Latin-1 marks
    ' . : ^ ` and 0xA8, 0xAD, 0xAF, 0xB4, 0xB7, 0xB8; every combining
    mark U+0300-U+036F; U+0374, U+0375, U+037A, U+0384, U+0385,
    U+0387. *)
Definition case_ignorable (c : char) : bool :=
  match c with
  | Latin low =>
      let n := nat_of_ascii low in
      (n =? 39) || (n =? 46) || (n =? 58) || (n =? 94) || (n =? 96)
      || (n =? 168) || (n =? 173) || (n =? 175) || (n =? 180)
      || between 183 184 n
  | Greek low =>
      let n := nat_of_ascii low in
      between 0 111 n || between 116 117 n || (n =? 122)
      || between 132 133 n || (n =? 135)
  end.

(** The property Cased. *)
Definition cased (c : char) : bool :=
  match c with
  | Latin low =>
      let n := nat_of_ascii low in
      between 65 90 n || between 97 122 n || (n =? 170) || (n =? 181)
      || (n =? 186) || between 192 214 n || between 216 246 n
      || between 248 255 n
  | Greek low =>
      let n := nat_of_ascii low in
      (n =? 69) || between 112 115 n || between 118 119 n
      || between 122 125 n || (n =? 127) || (n =? 134)
      || between 136 138 n || (n =? 140) || between 142 161 n
      || between 163 245 n || between 247 255 n
  end.

(** Whether the nearest character that is not case-ignorable is cased;
    [context] runs outward from the sigma. *)
Fixpoint cased_nearby (context : pystr) : bool :=
  match context with
  | [] => false
  | c :: rest => if case_ignorable c then cased_nearby rest else cased c
  end.

(** A capital sigma is in final position when a cased character comes
    before it and none comes after it, case-ignorable ones skipped. *)
Definition final_sigma (before_reversed after : pystr) : bool :=
  cased_nearby before_reversed && negb (cased_nearby after).

(** [str.lower] from a place inside the text; [before_reversed] is the
    text before that place, nearest character first. *)
Fixpoint lower_from (before_reversed s : pystr) : pystr :=
  match s with
  | [] => []
  | c :: rest =>
      (if char_eqb c CAPITAL_SIGMA
       then if final_sigma before_reversed rest then FINAL_SIGMA
            else SMALL_SIGMA
       else lower_char c)
      :: lower_from (c :: before_reversed) rest
  end.

(** [s.lower()] *)
Definition lower (s : pystr) : pystr := lower_from [] s.

(** [str.isspace] on one code point; the Greek page has none. *)
Definition isspace (c : char) : bool :=
  match c with
  | Latin low =>
      let n := nat_of_ascii low in
      ((9 <=? n) && (n <=? 13)) || ((28 <=? n) && (n <=? 32))
      || (n =? 133) || (n =? 160)
  | Greek _ => false
  end.

(** [s.replace(c, '')] for a one-character [c]. *)
Definition remove_char (c : char) (s : pystr) : pystr :=
  filter (fun x => negb (char_eqb x c)) s.

Fixpoint lstrip (s : pystr) : pystr :=
  match s with
  | c :: rest => if isspace c then lstrip rest else s
  | [] => []
  end.

Definition rstrip (s : pystr) : pystr := rev (lstrip (rev s)).

(** [s.strip()] *)
Definition strip (s : pystr) : pystr := rstrip (lstrip s).

(** [s.index(c)] for a one-character [c]: the smallest index holding
    [c]; [None] stands for the [ValueError]. *)
Fixpoint index (s : pystr) (c : char) : option nat :=
  match s with
  | [] => None
  | x :: rest =>
      if char_eqb x c then Some 0
      else match index rest c with
           | Some i => Some (S i)
           | None => None
           end
  end.

(** [s[i:]] *)
Definition slice_from (i : nat) (s : pystr) : pystr := skipn i s.

(** [s.startswith(prefix)] *)
Fixpoint startswith (s prefix : pystr) : bool :=
  match prefix, s with
  | [], _ => true
  | p :: prefix', c :: s' => char_eqb c p && startswith s' prefix'
  | _ :: _, [] => false
  end.

(** [s.endswith(suffix)] *)
Definition endswith (s suffix : pystr) : bool :=
  startswith (rev s) (rev suffix).

(** [c in s] for a one-character [c]. *)
Definition contains (c : char) (s : pystr) : bool :=
  existsb (fun x => char_eqb x c) s.

(** [s.split(sep)] for a one-character [sep]: never empty; [n]
    separators give [n + 1] fields. *)
Fixpoint split (sep : char) (s : pystr) : list pystr :=
  match s with
  | [] => [[]]
  | c :: rest =>
      if char_eqb c sep then [] :: split sep rest
      else match split sep rest with
           | field :: fields => (c :: field) :: fields
           | [] => [[c]]
           end
  end.

(** [sep.join(fields)] *)
Fixpoint join (sep : pystr) (fields : list pystr) : pystr :=
  match fields with
  | [] => []
  | [field] => field
  | field :: rest => field ++ sep ++ join sep rest
  end.

(** Python's ordering of strings: lexicographic on code points. *)
Fixpoint compare (s t : pystr) : comparison :=
  match s, t with
  | [], [] => Eq
  | [], _ :: _ => Lt
  | _ :: _, [] => Gt
  | a :: s', b :: t' =>
      match Nat.compare (code a) (code b) with
      | Eq => compare s' t'
      | o => o
      end
  end.

Fixpoint eqb (s t : pystr) : bool :=
  match s, t with
  | [], [] => true
  | a :: s', b :: t' => char_eqb a b && eqb s' t'
  | _, _ => false
  end.

(** The whitespace [int] skips at both ends: tab to carriage return and
    the space, and U+0085 and U+00A0, which it reads as spaces.  The
    separators U+001C-U+001F are whitespace for [str.isspace] but not
    for [int]. *)
Definition int_space (c : char) : bool :=
  match c with
  | Latin low =>
      let n := nat_of_ascii low in
      ((9 <=? n) && (n <=? 13)) || (n =? 32) || (n =? 133) || (n =? 160)
  | Greek _ => false
  end.

Fixpoint int_lstrip (s : pystr) : pystr :=
  match s with
  | c :: rest => if int_space c then int_lstrip rest else s
  | [] => []
  end.

Definition int_strip (s : pystr) : pystr :=
  rev (int_lstrip (rev (int_lstrip s))).

(** [int(s)] on a [str]: surrounding whitespace is dropped, one sign is
    allowed, and the digits may be grouped by single underscores;
    [None] stands for the [ValueError].  The two pages hold no decimal
    digits but 0-9.  (CPython also raises [ValueError] above 4300
    digits; such texts are outside the model.) *)
Definition digit_value (c : char) : option Z :=
  match c with
  | Latin low =>
      let n := nat_of_ascii low in
      if (48 <=? n) && (n <=? 57) then Some (Z.of_nat (n - 48)) else None
  | Greek _ => None
  end.

Fixpoint digits (acc : Z) (after_digit : bool) (s : pystr) : option Z :=
  match s with
  | [] => if after_digit then Some acc else None
  | c :: rest =>
      if char_eqb c "_"
      then if after_digit then digits acc false rest else None
      else match digit_value c with
           | Some d => digits (10 * acc + d) true rest
           | None => None
           end
  end.

Definition int (s : pystr) : option Z :=
  match int_strip s with
  | Latin "+" :: body => digits 0 false body
  | Latin "-" :: body => option_map Z.opp (digits 0 false body)
  | body => digits 0 false body
  end.

End PyStr.

(** Truth value of a value that is [None] or a [str]. *)
Definition truthy (v : option pystr) : bool :=
  match v with
  | Some (_ :: _) => true
  | _ => false
  end.

(** ** [matches_filter] *)

(** The [for filter_char in filter_] loop; [false] is the early
    [return False] of the [except ValueError] branch. *)
Fixpoint filter_loop (rest filter_ : pystr) : bool :=
  match filter_ with
  | [] => true
  | filter_char :: more =>
      match PyStr.index rest filter_char with
      | Some index => filter_loop (PyStr.slice_from index rest) more
      | None => false
      end
  end.

(** [filter_.lower().replace(' ', '').strip()] *)
Definition normalize_filter (filter_ : pystr) : pystr :=
  PyStr.strip (PyStr.remove_char " "%char (PyStr.lower filter_)).

Definition matches_filter (file_name : pystr) (filter_ : option pystr) : bool :=
  match filter_ with
  | Some ((_ :: _) as f) =>
      filter_loop (PyStr.lower file_name) (normalize_filter f)
  | _ => negb (PyStr.startswith file_name (py "."))
  end.

(** ** Exceptions *)

Inductive exn : Type :=
| TypeError
| RuntimeError
| FileNotFoundError
| NotADirectoryError
| PermissionError.

(** What a call does: it returns a value or an exception leaves it. *)
Inductive outcome (A : Type) : Type :=
| Returned (value : A)
| Raised (e : exn).

Arguments Returned {A} value.
Arguments Raised {A} e.

Definition bind {A B : Type} (m : outcome A) (k : A -> outcome B) : outcome B :=
  match m with
  | Returned a => k a
  | Raised e => Raised e
  end.

Notation "x <- m ;; k" := (bind m (fun x => k))
  (at level 61, m at next level, right associativity).
Notation "' pat <- m ;; k" := (bind m (fun x => match x with pat => k end))
  (at level 61, pat pattern, m at next level, right associativity).

(** ** [pathlib] on POSIX

    A path is its root (empty, [/] or [//]) and the list of its
    components; the drive is always empty on POSIX. *)

Module PathLib.

Record Path : Type := { root : pystr; tail : list pystr }.

(** Exactly two leading slashes are kept, any other number collapses
    to one. *)
Definition parse_root (s : pystr) : pystr :=
  match s with
  | Latin "/" :: Latin "/" :: Latin "/" :: _ => py "/"
  | Latin "/" :: Latin "/" :: _ => py "//"
  | Latin "/" :: _ => py "/"
  | _ => []
  end.

(** Empty components and [.] are dropped. *)
Definition keep_part (part : pystr) : bool :=
  negb (PyStr.eqb part []) && negb (PyStr.eqb part (py ".")).

Definition parse_tail (s : pystr) : list pystr :=
  filter keep_part (PyStr.split "/" s).

(** [Path(s)] *)
Definition make (s : pystr) : Path :=
  {| root := parse_root s; tail := parse_tail s |}.

(** [str(p)] *)
Definition str (p : Path) : pystr :=
  match root p ++ PyStr.join (py "/") (tail p) with
  | [] => py "."
  | s => s
  end.

(** [p.name] *)
Definition name (p : Path) : pystr := last (tail p) [].

Definition is_absolute (p : Path) : bool :=
  match root p with [] => false | _ => true end.

(** The child that [p.iterdir()] builds for a directory entry. *)
Definition child (p : Path) (entry : pystr) : Path :=
  {| root := root p; tail := tail p ++ [entry] |}.

(** [p.expanduser()]; [os_expanduser] is [os.path.expanduser], which
    gives its argument back when it finds no home directory. *)
Definition expanduser (os_expanduser : pystr -> pystr) (p : Path)
  : outcome Path :=
  match root p, tail p with
  | [], first :: rest =>
      if PyStr.startswith first (py "~") then
        let homedir := os_expanduser first in
        if PyStr.startswith homedir (py "~") then Raised RuntimeError
        else Returned {| root := parse_root homedir;
                         tail := parse_tail homedir ++ rest |}
      else Returned p
  | _, _ => Returned p
  end.

(** The test of [expanduser]: no root and a first component that
    starts with '~'. *)
Definition home_relative (p : Path) : bool :=
  match root p, tail p with
  | [], first :: _ => PyStr.startswith first (py "~")
  | _, _ => false
  end.

(** What [pathlib] keeps as a component: not empty, not [.], and
    free of '/'.  The names of directory entries are such texts. *)
Definition valid_part (part : pystr) : bool :=
  keep_part part && negb (PyStr.contains "/" part).

(** The paths [pathlib] builds. *)
Definition well_formed (p : Path) : Prop :=
  (root p = [] \/ root p = py "/" \/ root p = py "//")
  /\ Forall (fun part => valid_part part = true) (tail p).

End PathLib.

Import PathLib.

(** ** The host: operating system, file system and icon theme *)

Record Host : Type := {
  (** [os.path.expanduser] *)
  os_expanduser : pystr -> pystr;
  (** [os.listdir]: the entry names of a directory, in the order the
      system enumerates them, or the [OSError] it raises. *)
  listdir : Path -> outcome (list pystr);
  (** [p.is_dir()] *)
  is_dir : Path -> bool;
  (** The Gtk branch of [get_icon_for_file]: the file name of the themed
      icon; [None] when Gtk is missing, the lookup raised or the theme
      has no icon. *)
  theme_icon : Path -> option pystr
}.

(** [p.iterdir()], consumed to the end. *)
Definition iterdir (host : Host) (p : Path) : outcome (list Path) :=
  names <- listdir host p ;;
  Returned (map (child p) names).

(** ** [sorted(iterable, key=...)]

    Keys are pairs (bool, str), ordered as Python orders tuples. *)

Definition sort_key : Type := (bool * pystr)%type.

Definition key_compare (a b : sort_key) : comparison :=
  match fst a, fst b with
  | false, true => Lt
  | true, false => Gt
  | _, _ => PyStr.compare (snd a) (snd b)
  end.

Definition key_lt (a b : sort_key) : bool :=
  match key_compare a b with Lt => true | _ => false end.

Definition key_le (a b : sort_key) : bool := negb (key_lt b a).

Section Sorted.
Context {A : Type} (key : A -> sort_key).

(** [x] goes in front of the first element that is not below it, so
    equal keys keep their order (the sort is stable). *)
Fixpoint insert_by (x : A) (l : list A) : list A :=
  match l with
  | [] => [x]
  | y :: rest =>
      if key_lt (key y) (key x) then y :: insert_by x rest
      else x :: l
  end.

Definition sorted (l : list A) : list A := fold_right insert_by [] l.

(** [x] is not above [y] in the order of the keys. *)
Definition le_by (x y : A) : Prop := key_le (key x) (key y) = true.
End Sorted.

(** ** Result items *)

Inductive Action : Type :=
| OpenAction (path : pystr)
| SetUserQueryAction (new_query : pystr).

Record ExtensionResultItem : Type := {
  icon : pystr;
  item_name : pystr;
  on_enter : Action
}.

Definition DEFAULT_FILE_ICON : pystr := py "images/default_file.png".
Definition DEFAULT_FOLDER_ICON : pystr := py "images/default_folder.png".
Definition IMAGE_EXTENSIONS : list pystr := [py ".png"; py ".jpg"; py ".jpeg"].

Definition get_icon_for_file (host : Host) (path : Path) : pystr :=
  if existsb (PyStr.endswith (PyStr.lower (name path))) IMAGE_EXTENSIONS
  then str path
  else match theme_icon host path with
       | Some filename => filename
       | None =>
           if is_dir host path then DEFAULT_FOLDER_ICON
           else DEFAULT_FILE_ICON
       end.

(** ** Events and preferences *)

Record KeywordQueryEvent : Type := {
  get_keyword : pystr;
  get_argument : option pystr
}.

(** [extension.preferences], a dict from names to texts. *)
Definition preferences : Type := list (pystr * pystr).

Fixpoint dict_get (d : preferences) (k : pystr) : option pystr :=
  match d with
  | [] => None
  | (k', v) :: rest => if PyStr.eqb k' k then Some v else dict_get rest k
  end.

(** ** [KeywordQueryEventListener.on_event] *)

Definition text (v : option pystr) : pystr :=
  match v with Some s => s | None => [] end.

(** Lines 120-129: the directory and the filter named by the argument,
    before [expanduser].  [Path(None)] raises [TypeError]. *)
Definition path_and_filter (argument : option pystr) (prefs : preferences)
  : outcome (Path * option pystr) :=
  if truthy argument && PyStr.contains "/" (text argument) then
    let bits := PyStr.split "/" (text argument) in
    let current_path := make (PyStr.join (py "/") (removelast bits)) in
    let current_filter := Some (last bits []) in
    Returned (current_path, current_filter)
  else
    match dict_get prefs (py "fb_default_path") with
    | Some default_path => Returned (make default_path, argument)
    | None => Raised TypeError
    end.

(** Lines 120-131. *)
Definition parse_query (host : Host) (argument : option pystr)
    (prefs : preferences) : outcome (Path * option pystr) :=
  '(current_path, current_filter) <- path_and_filter argument prefs ;;
  current_path <- expanduser (os_expanduser host) current_path ;;
  Returned (current_path, current_filter).

Definition OPEN_FOLDER_NAME : pystr :=
  py "[ Open folder in external file browser ]".

(** Lines 137-141. *)
Definition open_folder_item (host : Host) (current_path : Path)
  : ExtensionResultItem :=
  {| icon := get_icon_for_file host current_path;
     item_name := OPEN_FOLDER_NAME;
     on_enter := OpenAction (str current_path) |}.

(** Line 147: the sort key of a child. *)
Definition child_key (host : Host) (child_path : Path) : sort_key :=
  (negb (is_dir host child_path), name child_path).

(** Lines 150-155: [items_limit] after the [try]: [None], the parsed
    number, or the text itself when [int] raised [ValueError]. *)
Inductive limit_value : Type :=
| LimitNone
| LimitInt (n : Z)
| LimitStr (s : pystr).

Definition items_limit (prefs : preferences) : limit_value :=
  match dict_get prefs (py "fb_items_limit") with
  | None => LimitNone
  | Some s =>
      match PyStr.int s with
      | Some n => LimitInt n
      | None => LimitStr s
      end
  end.

(** Line 177: [items_limit is not None and items_count == items_limit];
    a number never equals a text. *)
Definition limit_reached (limit : limit_value) (items_count : Z) : bool :=
  match limit with
  | LimitInt n => Z.eqb items_count n
  | _ => false
  end.

(** Line 157. *)
Definition show_hidden (prefs : preferences) : bool :=
  match dict_get prefs (py "fb_show_hidden") with
  | Some v => PyStr.eqb v (py "Yes")
  | None => false
  end.

(** Lines 164-167. *)
Definition item_action (host : Host) (keyword : pystr) (child_path : Path)
  : Action :=
  if is_dir host child_path
  then SetUserQueryAction (keyword ++ py " " ++ str child_path ++ py "/")
  else OpenAction (str child_path).

(** Lines 169-173. *)
Definition child_item (host : Host) (keyword : pystr) (child_path : Path)
  : ExtensionResultItem :=
  {| icon := get_icon_for_file host child_path;
     item_name := name child_path;
     on_enter := item_action host keyword child_path |}.

(** Lines 161-178: the loop over the sorted children; the items it
    appends, given the count reached so far.  Stopping the recursion is
    the [break]. *)
Fixpoint children_loop (host : Host) (keyword : pystr) (hidden : bool)
    (current_filter : option pystr) (limit : limit_value)
    (children : list Path) (items_count : Z) : list ExtensionResultItem :=
  match children with
  | [] => []
  | child_path :: rest =>
      if hidden || negb (PyStr.startswith (name child_path) (py ".")) then
        if matches_filter (name child_path) current_filter then
          let item := child_item host keyword child_path in
          let items_count := (items_count + 1)%Z in
          if limit_reached limit items_count then [item]
          else item :: children_loop host keyword hidden current_filter
                         limit rest items_count
        else children_loop host keyword hidden current_filter limit rest
               items_count
      else children_loop host keyword hidden current_filter limit rest
             items_count
  end.

Definition on_event (host : Host) (event : KeywordQueryEvent)
    (prefs : preferences) : outcome (list ExtensionResultItem) :=
  let keyword := get_keyword event in
  let argument := get_argument event in
  '(current_path, current_filter) <- parse_query host argument prefs ;;
  let items :=
    if negb (truthy current_filter) then [open_folder_item host current_path]
    else [] in
  children <- iterdir host current_path ;;
  let sorted_children := sorted (child_key host) children in
  let limit := items_limit prefs in
  let hidden := show_hidden prefs in
  Returned (items ++ children_loop host keyword hidden current_filter limit
                       sorted_children 0).

(** ** Reading the result list *)

(** The two rules of the loop body for one child: the visibility rule
    (line 162) and the filter rule (line 163). *)
Definition passes (hidden : bool) (current_filter : option pystr)
    (child_path : Path) : bool :=
  (hidden || negb (PyStr.startswith (name child_path) (py ".")))
  && matches_filter (name child_path) current_filter.

(** The children that pass both rules, in sorted order. *)
Definition passing (host : Host) (prefs : preferences)
    (current_filter : option pystr) (children : list Path) : list Path :=
  filter (passes (show_hidden prefs) current_filter)
    (sorted (child_key host) children).

(** The items appended before the loop (lines 136-142). *)
Definition synthetic_items (host : Host) (current_path : Path)
    (current_filter : option pystr) : list ExtensionResultItem :=
  if negb (truthy current_filter) then [open_folder_item host current_path]
  else [].

(** An item whose action opens the folder [current_path] itself. *)
Definition opens_folder (current_path : Path) (item : ExtensionResultItem)
  : bool :=
  match on_enter item with
  | OpenAction path => PyStr.eqb path (str current_path)
  | SetUserQueryAction _ => false
  end.

(** ** Texts for examples

    "ασ" (U+03B1 U+03C3) and the same in capitals, "ΑΣ"
    (U+0391 U+03A3). *)
Definition small_alpha_sigma : pystr := [Greek "177"; PyStr.SMALL_SIGMA].
Definition capital_alpha_sigma : pystr := [Greek "145"; PyStr.CAPITAL_SIGMA].

(** ** A small host for examples

    Home is [/home/u].  [/home/u] holds the directories [docs] and
    [.git] and the files [notes], [Zed] and [a.png]; [/home/u/docs] is
    empty; nothing else exists. *)

Definition demo_listdir (p : Path) : outcome (list pystr) :=
  if PyStr.eqb (str p) (py "/home/u")
  then Returned [py "notes"; py "docs"; py "a.png"; py ".git"; py "Zed"]
  else if PyStr.eqb (str p) (py "/home/u/docs") then Returned []
  else if PyStr.eqb (str p) (py "/home/u/notes") then Raised NotADirectoryError
  else Raised FileNotFoundError.

Definition demo_is_dir (p : Path) : bool :=
  existsb (PyStr.eqb (str p))
    [py "/"; py "/home"; py "/home/u"; py "/home/u/docs"; py "/home/u/.git"].

Definition demo_host : Host :=
  {| os_expanduser := fun s =>
       if PyStr.eqb s (py "~") then py "/home/u" else s;
     listdir := demo_listdir;
     is_dir := demo_is_dir;
     theme_icon := fun _ => None |}.

(** The same host, enumerating /home/u in another order. *)
Definition demo_host_reordered : Host :=
  {| os_expanduser := os_expanduser demo_host;
     listdir := fun p =>
       if PyStr.eqb (str p) (py "/home/u")
       then Returned [py "Zed"; py ".git"; py "a.png"; py "docs"; py "notes"]
       else listdir demo_host p;
     is_dir := is_dir demo_host;
     theme_icon := theme_icon demo_host |}.

(** A host whose working directory holds a directory named "~". *)
Definition tilde_host : Host :=
  {| os_expanduser := fun s =>
       if PyStr.eqb s (py "~") then py "/home/u" else s;
     listdir := fun p =>
       if PyStr.eqb (str p) (py ".") then Returned [py "~"]
       else if PyStr.eqb (str p) (py "/home/u") then Returned [py "notes"]
       else Raised FileNotFoundError;
     is_dir := fun p =>
       existsb (PyStr.eqb (str p)) [py "."; py "~"; py "/home/u"];
     theme_icon := fun _ => None |}.

Definition demo_prefs : preferences :=
  [(py "fb_default_path", py "~"); (py "fb_items_limit", py "2");
   (py "fb_show_hidden", py "No")].

Definition demo_event (argument : option pystr) : KeywordQueryEvent :=
  {| get_keyword := py "f"; get_argument := argument |}.

(** ** The matcher in the words of its specification

    A cursor into the lower-cased name: each filter character is looked
    up at or after the cursor, and the cursor moves to the first place
    found (not one past it). *)

Definition first_occurrence (s : pystr) (c : char) (cursor i : nat) : Prop :=
  cursor <= i
  /\ nth_error s i = Some c
  /\ forall j, cursor <= j < i -> nth_error s j <> Some c.

Inductive cursor_scan (s : pystr) : nat -> pystr -> Prop :=
| scan_done : forall cursor, cursor_scan s cursor []
| scan_char : forall cursor c i more,
    first_occurrence s c cursor i ->
    cursor_scan s i more ->
    cursor_scan s cursor (c :: more).


(** ** [PreferencesEventListener.on_event] and the extension state *)

(** [d[k] = v]: the value of an existing key is replaced where it
    stands, a new key is added at the end. *)
Fixpoint dict_set (d : preferences) (k v : pystr) : preferences :=
  match d with
  | [] => [(k, v)]
  | (k', v') :: rest =>
      if PyStr.eqb k' k then (k', v) :: rest
      else (k', v') :: dict_set rest k v
  end.

(** The two events the listener is subscribed to.  [PreferencesEvent]
    has the attribute [preferences]; [PreferencesUpdateEvent] has [id],
    [old_value] and [new_value]. *)
Inductive preferences_event : Type :=
| PreferencesEvent (event_preferences : preferences)
| PreferencesUpdateEvent (id old_value new_value : pystr).

Module PreferencesEventListener.

(** Lines 105-109: the preferences of the extension after the event;
    the match on the constructor is the [hasattr] test. *)
Definition on_event (event : preferences_event)
    (extension_preferences : preferences) : preferences :=
  match event with
  | PreferencesEvent event_preferences => event_preferences
  | PreferencesUpdateEvent id _ new_value =>
      dict_set extension_preferences id new_value
  end.

End PreferencesEventListener.

(** Line 91: [self.preferences = {}]. *)
Definition initial_preferences : preferences := [].

(** The preferences after a run of preference events, oldest first. *)
Definition preferences_after (events : list preferences_event)
    (extension_preferences : preferences) : preferences :=
  fold_left (fun prefs event => PreferencesEventListener.on_event event prefs)
    events extension_preferences.

(** Whether an event can change what [key] reads as: a full
    [PreferencesEvent] replaces the dict, an update sets its own key. *)
Definition touches (key : pystr) (event : preferences_event) : bool :=
  match event with
  | PreferencesEvent _ => true
  | PreferencesUpdateEvent id _ _ => PyStr.eqb id key
  end.

(** ** Ordered subsequences

    The usual notion: the characters of [f] occur in [s] in the same
    order, each at a place of its own. *)
Inductive subsequence : pystr -> pystr -> Prop :=
| subsequence_nil : forall s, subsequence [] s
| subsequence_take : forall c f s,
    subsequence f s -> subsequence (c :: f) (c :: s)
| subsequence_skip : forall x f s,
    subsequence f s -> subsequence f (x :: s).

(** A text with every run of equal characters cut down to one. *)
Fixpoint squeeze (f : pystr) : pystr :=
  match f with
  | [] => []
  | c :: rest =>
      match rest with
      | d :: _ => if PyStr.char_eqb c d then squeeze rest else c :: squeeze rest
      | [] => [c]
      end
  end.

(** * Properties *)

(** ** Strings *)

Lemma char_eqb_true (a b : char) : PyStr.char_eqb a b = true <-> a = b.
Proof.
  destruct a as [x | x], b as [y | y]; simpl;
    try rewrite Ascii.eqb_eq; split; congruence.
Qed.

Lemma char_eqb_refl (a : char) : PyStr.char_eqb a a = true.
Proof. now apply char_eqb_true. Qed.

Lemma char_dec (a b : char) : {a = b} + {a <> b}.
Proof. decide equality; apply Ascii.ascii_dec. Qed.

Lemma pystr_eqb_eq (s t : pystr) : PyStr.eqb s t = true <-> s = t.
Proof.
  revert t; induction s as [|a s IH]; intros [|b t]; simpl;
    try (split; [discriminate | discriminate]); try tauto.
  rewrite andb_true_iff, char_eqb_true, IH.
  split; [intros [-> ->]; reflexivity | intros E; injection E; auto].
Qed.

Lemma nth_error_skipn_add (A : Type) (k i : nat) (l : list A) :
  nth_error (skipn k l) i = nth_error l (k + i).
Proof.
  revert l; induction k as [|k IH]; intros l; simpl; [reflexivity|].
  destruct l as [|x l]; simpl; [now destruct i | apply IH].
Qed.

Lemma index_Some (s : pystr) (c : char) (i : nat) :
  PyStr.index s c = Some i <->
  nth_error s i = Some c /\ forall j, j < i -> nth_error s j <> Some c.
Proof.
  revert i; induction s as [|x s IH]; intros i; simpl.
  - split; [discriminate | intros [H _]; now destruct i].
  - destruct (PyStr.char_eqb x c) eqn:E.
    + apply char_eqb_true in E; subst x. split.
      * intros H; injection H as <-. split; [reflexivity | lia].
      * intros [H1 H2]. destruct i as [|i]; [reflexivity|].
        exfalso; apply (H2 0); [lia | reflexivity].
    + assert (x <> c) as N
        by (intros ->; rewrite char_eqb_refl in E; discriminate).
      destruct i as [|i].
      * split.
        -- destruct (PyStr.index s c); discriminate.
        -- intros [H _]; simpl in H; congruence.
      * specialize (IH i). split.
        -- destruct (PyStr.index s c) as [k|]; [|discriminate].
           intros H; injection H as ->.
           destruct (proj1 IH eq_refl) as [H1 H2]. split; [exact H1|].
           intros [|j] Hj; simpl; [congruence | apply H2; lia].
        -- intros [H1 H2].
           rewrite (proj2 IH); [reflexivity|].
           split; [exact H1|]. intros j Hj; apply (H2 (S j)); lia.
Qed.

Lemma index_first_occurrence (s : pystr) (c : char) (k i : nat) :
  PyStr.index (skipn k s) c = Some i <-> first_occurrence s c k (k + i).
Proof.
  rewrite index_Some, nth_error_skipn_add. unfold first_occurrence.
  split.
  - intros [H1 H2]. repeat split; [lia | exact H1 |].
    intros j Hj. replace j with (k + (j - k)) by lia.
    rewrite <- nth_error_skipn_add. apply H2; lia.
  - intros (_ & H1 & H2). split; [exact H1|].
    intros j Hj. rewrite nth_error_skipn_add. apply H2; lia.
Qed.

(** The loop of [matches_filter], started on the name cut at [k], is the
    cursor scan started at [k]. *)
Lemma filter_loop_cursor (s : pystr) (f : pystr) :
  forall k, filter_loop (skipn k s) f = true <-> cursor_scan s k f.
Proof.
  induction f as [|c more IH]; intros k; simpl.
  - split; [intros _; constructor | reflexivity].
  - split.
    + destruct (PyStr.index (skipn k s) c) as [i|] eqn:E; [|discriminate].
      unfold PyStr.slice_from. rewrite skipn_skipn, Nat.add_comm.
      intros H. apply scan_char with (i := k + i).
      * apply index_first_occurrence, E.
      * apply IH, H.
    + intros H. inversion H as [|? ? i ? Hocc Hscan]; subst.
      assert (i = k + (i - k)) as Ei by (destruct Hocc; lia).
      rewrite Ei in Hocc.
      apply index_first_occurrence in Hocc. rewrite Hocc.
      unfold PyStr.slice_from. rewrite skipn_skipn, Nat.add_comm, <- Ei.
      apply IH, Hscan.
Qed.

(** C1. For a non-empty filter, [matches_filter] holds exactly when the
    cursor scan of the lower-cased name, started at position 0, finds
    every character of the normalized filter: each one at its first
    occurrence at or after the cursor, the cursor moving to that index
    itself.  So "fisa" matches "fa" and does not match "af". *)
Theorem matches_filter_cursor_scan :
  (forall (file_name filter_ : pystr),
      filter_ <> [] ->
      (matches_filter file_name (Some filter_) = true <->
       cursor_scan (PyStr.lower file_name) 0 (normalize_filter filter_)))
  /\ matches_filter (py "fisa") (Some (py "fa")) = true
  /\ matches_filter (py "fisa") (Some (py "af")) = false.
Proof.
  split; [|split; reflexivity].
  intros file_name [|c f] Hne; [congruence|].
  unfold matches_filter.
  apply (filter_loop_cursor (PyStr.lower file_name) _ 0).
Qed.

Lemma matches_filter_cursor_scan_witness :
  py "fa" <> []
  /\ (matches_filter (py "fisa") (Some (py "fa")) = true <->
      cursor_scan (PyStr.lower (py "fisa")) 0 (normalize_filter (py "fa"))).
Proof.
  split; [discriminate|].
  apply (proj1 matches_filter_cursor_scan (py "fisa") (py "fa")).
  discriminate.
Defined.

(** The cursor stays on the place it found, so one character of the name
    serves a run of equal filter characters. *)
Example matches_overlap : matches_filter (py "a") (Some (py "aaa")) = true.
Proof. reflexivity. Qed.

Lemma startswith_dot (s : pystr) :
  PyStr.startswith s (py ".") = true <-> exists rest, s = Latin "." :: rest.
Proof.
  destruct s as [|c s]; cbn.
  - split; [discriminate | intros [r H]; discriminate].
  - replace (PyStr.startswith s []) with true by (now destruct s).
    rewrite andb_true_r, char_eqb_true.
    split; [intros ->; now exists s | intros [r H]; congruence].
Qed.

(** C2. With the empty filter, [matches_filter] holds exactly when the
    name does not start with '.'; the absent filter ([None]) behaves the
    same.  ".git" is rejected and "notes" is accepted. *)
Theorem matches_filter_empty :
  (forall file_name : pystr,
      (matches_filter file_name (Some []) = true <->
       ~ exists rest, file_name = Latin "." :: rest)
      /\ matches_filter file_name None = matches_filter file_name (Some []))
  /\ matches_filter (py ".git") (Some (py "")) = false
  /\ matches_filter (py "notes") (Some (py "")) = true.
Proof.
  split; [|split; reflexivity].
  intros file_name. split; [|reflexivity].
  unfold matches_filter. rewrite negb_true_iff, <- startswith_dot.
  destruct (PyStr.startswith file_name (py ".")); split; congruence.
Qed.

(** ** Lower-casing and the normalization of the filter *)

(** Without a capital sigma, lower-casing goes character by
    character. *)
Lemma lower_from_sigma_free (before s : pystr) :
  PyStr.contains PyStr.CAPITAL_SIGMA s = false ->
  PyStr.lower_from before s = map PyStr.lower_char s.
Proof.
  revert before; induction s as [|c s IH]; intros before H; [reflexivity|].
  simpl in *. apply orb_false_iff in H as [Hc Hs].
  rewrite Hc. f_equal. apply IH, Hs.
Qed.

Lemma lower_sigma_free (s : pystr) :
  PyStr.contains PyStr.CAPITAL_SIGMA s = false ->
  PyStr.lower s = map PyStr.lower_char s.
Proof. apply lower_from_sigma_free. Qed.









(** The same with an inserted space: "ΑΣΒ" lower-cases to "ασβ", but
    "ΑΣ Β" to "ας β". *)
Example capital_sigma_space :
  matches_filter (small_alpha_sigma ++ [Greek "178"])
    (Some (capital_alpha_sigma ++ [Greek "146"])) = true
  /\ matches_filter (small_alpha_sigma ++ [Greek "178"])
       (Some (capital_alpha_sigma ++ [Latin " "; Greek "146"])) = false.
Proof. split; reflexivity. Qed.

Lemma remove_space_lower_from (before f : pystr) :
  Forall (eq (Latin " ")) f ->
  PyStr.remove_char " " (PyStr.lower_from before f) = [].
Proof.
  intros H. revert before.
  induction H as [|c f <- _ IH]; intros before; [reflexivity|].
  simpl. apply IH.
Qed.

Lemma normalize_filter_spaces (f : pystr) :
  Forall (eq (Latin " ")) f -> normalize_filter f = [].
Proof.
  intros H. unfold normalize_filter, PyStr.lower.
  now rewrite (remove_space_lower_from [] f H).
Qed.

(** C10. A non-empty filter made of spaces only is matched by every
    name, hidden names included: the non-empty branch is taken, the
    normalized filter is empty and the loop has nothing to look for.
    The empty filter, in contrast, rejects hidden names. *)
Theorem matches_filter_only_spaces :
  (forall (file_name filter_ : pystr),
      filter_ <> [] ->
      Forall (eq (Latin " ")) filter_ ->
      normalize_filter filter_ = []
      /\ matches_filter file_name (Some filter_) = true)
  /\ matches_filter (py ".git") (Some (py "  ")) = true
  /\ matches_filter (py ".git") (Some (py "")) = false.
Proof.
  split; [|split; reflexivity].
  intros file_name f Hne Hsp.
  pose proof (normalize_filter_spaces f Hsp) as Hn.
  split; [exact Hn|].
  destruct f as [|c f]; [congruence|].
  unfold matches_filter. rewrite Hn. reflexivity.
Qed.

Lemma matches_filter_only_spaces_witness :
  py " " <> []
  /\ Forall (eq (Latin " ")) (py " ")
  /\ normalize_filter (py " ") = []
  /\ matches_filter (py ".hidden") (Some (py " ")) = true.
Proof.
  assert (Forall (eq (Latin " ")) (py " ")) as F
    by (repeat constructor).
  split; [discriminate|]. split; [exact F|].
  apply (proj1 matches_filter_only_spaces (py ".hidden") (py " "));
    [discriminate | exact F].
Defined.

(** ** Splitting and joining *)

Lemma split_nonempty (sep : char) (s : pystr) : PyStr.split sep s <> [].
Proof.
  induction s as [|c s IH]; simpl; [discriminate|].
  destruct (PyStr.char_eqb c sep); [discriminate|].
  destruct (PyStr.split sep s); discriminate.
Qed.

Lemma join_split (sep : char) (s : pystr) :
  PyStr.join [sep] (PyStr.split sep s) = s.
Proof.
  induction s as [|c s IH]; simpl; [reflexivity|].
  pose proof (split_nonempty sep s) as Hne.
  destruct (PyStr.char_eqb c sep) eqn:E.
  - apply char_eqb_true in E; subst c.
    destruct (PyStr.split sep s) as [|f fs]; [congruence|].
    simpl in *. now rewrite IH.
  - destruct (PyStr.split sep s) as [|f fs]; [congruence|].
    destruct fs as [|g fs]; simpl in *; now rewrite <- IH.
Qed.

Lemma split_fields_clean (sep : char) (s : pystr) :
  Forall (fun field => PyStr.contains sep field = false) (PyStr.split sep s).
Proof.
  induction s as [|c s IH]; simpl; [repeat constructor|].
  destruct (PyStr.char_eqb c sep) eqn:E; [constructor; [reflexivity | exact IH]|].
  destruct (PyStr.split sep s) as [|f fs]; [repeat constructor; simpl; now rewrite E|].
  inversion IH; subst. constructor; [simpl; now rewrite E | assumption].
Qed.

Lemma split_contains (sep : char) (s : pystr) :
  PyStr.contains sep s = true -> removelast (PyStr.split sep s) <> [].
Proof.
  induction s as [|c s IH]; simpl; [discriminate|].
  pose proof (split_nonempty sep s) as Hne.
  destruct (PyStr.char_eqb c sep); simpl.
  - intros _. destruct (PyStr.split sep s); [congruence | discriminate].
  - intros H. specialize (IH H).
    destruct (PyStr.split sep s) as [|f [|g fs]]; simpl in *;
      [congruence | congruence | discriminate].
Qed.

Lemma join_snoc (sep : pystr) (l : list pystr) (x : pystr) :
  l <> [] -> PyStr.join sep (l ++ [x]) = PyStr.join sep l ++ sep ++ x.
Proof.
  induction l as [|a l IH]; [congruence|]. intros _.
  destruct l as [|b l]; [reflexivity|].
  change (PyStr.join sep ((a :: b :: l) ++ [x]))
    with (a ++ sep ++ PyStr.join sep ((b :: l) ++ [x])).
  rewrite IH by discriminate.
  change (PyStr.join sep (a :: b :: l))
    with (a ++ sep ++ PyStr.join sep (b :: l)).
  now rewrite <- !app_assoc.
Qed.

(** An argument with a '/' is its directory text, the last '/', and its
    last field. *)
Lemma split_last_separator (s : pystr) :
  PyStr.contains "/" s = true ->
  let bits := PyStr.split "/" s in
  s = PyStr.join (py "/") (removelast bits) ++ py "/" ++ last bits []
  /\ PyStr.contains "/" (last bits []) = false.
Proof.
  intros H. cbv zeta.
  pose proof (split_nonempty "/" s) as Hne.
  pose proof (split_contains "/" s H) as Hrl.
  pose proof (split_fields_clean "/" s) as Hall.
  pose proof (join_split "/" s) as Hjoin.
  revert Hne Hrl Hall Hjoin. generalize (PyStr.split "/" s) as bits.
  intros bits Hne Hrl Hall Hjoin.
  pose proof (app_removelast_last [] Hne) as Hdec.
  split.
  - rewrite <- Hjoin at 1. rewrite Hdec at 1.
    apply (join_snoc (py "/")), Hrl.
  - rewrite Forall_forall in Hall. apply Hall.
    rewrite Hdec at 2. apply in_or_app; right; now left.
Qed.

(** ** The query parser *)

Lemma contains_nonempty (c : char) (s : pystr) :
  PyStr.contains c s = true -> truthy (Some s) = true.
Proof. destruct s; [discriminate | reflexivity]. Qed.

Lemma path_and_filter_separator (arg : pystr) (prefs : preferences) :
  PyStr.contains "/" arg = true ->
  path_and_filter (Some arg) prefs =
  Returned (make (PyStr.join (py "/") (removelast (PyStr.split "/" arg))),
            Some (last (PyStr.split "/" arg) [])).
Proof.
  intros H. unfold path_and_filter.
  rewrite (contains_nonempty _ _ H). simpl text. rewrite H. reflexivity.
Qed.

Lemma path_and_filter_default (argument : option pystr) (prefs : preferences) :
  argument = None \/ PyStr.contains "/" (text argument) = false ->
  path_and_filter argument prefs =
  match dict_get prefs (py "fb_default_path") with
  | Some default_path => Returned (make default_path, argument)
  | None => Raised TypeError
  end.
Proof.
  intros [-> | H]; [reflexivity|].
  unfold path_and_filter. rewrite H, andb_false_r. reflexivity.
Qed.

(** C4. The argument, when present and holding a '/', is cut at its last
    '/': the base path is [Path] of the fields before it joined by '/',
    the filter is the last field (free of '/', possibly empty).
    Otherwise the base path is [Path] of the configured default path and
    the filter is the argument itself; the absent argument ([None]) is
    read as the empty filter by everything that uses it.  [expanduser]
    is applied once, to the path either branch gives. *)
Theorem parse_query_branches :
  (forall (arg : pystr) (prefs : preferences),
      PyStr.contains "/" arg = true ->
      let bits := PyStr.split "/" arg in
      path_and_filter (Some arg) prefs =
        Returned (make (PyStr.join (py "/") (removelast bits)),
                  Some (last bits []))
      /\ arg = PyStr.join (py "/") (removelast bits) ++ py "/" ++ last bits []
      /\ PyStr.contains "/" (last bits []) = false)
  /\ (forall (argument : option pystr) (prefs : preferences)
             (default_path : pystr),
         argument = None \/ PyStr.contains "/" (text argument) = false ->
         dict_get prefs (py "fb_default_path") = Some default_path ->
         path_and_filter argument prefs =
           Returned (make default_path, argument)
         /\ (argument = None ->
             truthy argument = truthy (Some [])
             /\ forall file_name,
                 matches_filter file_name argument =
                 matches_filter file_name (Some [])))
  /\ (forall (host : Host) (argument : option pystr) (prefs : preferences),
         parse_query host argument prefs =
         match path_and_filter argument prefs with
         | Returned (current_path, current_filter) =>
             match expanduser (os_expanduser host) current_path with
             | Returned expanded => Returned (expanded, current_filter)
             | Raised e => Raised e
             end
         | Raised e => Raised e
         end).
Proof.
  split; [|split].
  - intros arg prefs H bits. split.
    + apply path_and_filter_separator, H.
    + apply split_last_separator, H.
  - intros argument prefs default_path Harg Hdef. split.
    + rewrite path_and_filter_default by exact Harg. now rewrite Hdef.
    + intros ->. split; reflexivity.
  - intros host argument prefs. unfold parse_query.
    destruct (path_and_filter argument prefs) as [[p f]|e]; reflexivity.
Qed.

Lemma parse_query_branches_witness :
  (PyStr.contains "/" (py "documents/notes") = true
   /\ path_and_filter (Some (py "documents/notes")) demo_prefs =
      Returned (make (py "documents"), Some (py "notes")))
  /\ (PyStr.contains "/" (py "documents/") = true
      /\ path_and_filter (Some (py "documents/")) demo_prefs =
         Returned (make (py "documents"), Some (py "")))
  /\ (PyStr.contains "/" (text (Some (py "notes"))) = false
      /\ dict_get demo_prefs (py "fb_default_path") = Some (py "~")
      /\ path_and_filter (Some (py "notes")) demo_prefs =
         Returned (make (py "~"), Some (py "notes"))).
Proof.
  pose proof parse_query_branches as [Hsep [Hdef _]].
  split; [|split].
  - split; [reflexivity|].
    exact (proj1 (Hsep (py "documents/notes") demo_prefs eq_refl)).
  - split; [reflexivity|].
    exact (proj1 (Hsep (py "documents/") demo_prefs eq_refl)).
  - split; [reflexivity|]. split; [reflexivity|].
    exact (proj1 (Hdef (Some (py "notes")) demo_prefs (py "~")
                    (or_intror eq_refl) eq_refl)).
Defined.

Example parse_query_home :
  parse_query demo_host (Some (py "notes")) demo_prefs =
  Returned (make (py "/home/u"), Some (py "notes")).
Proof. reflexivity. Qed.

(** ** Paths *)

Lemma split_clean (sep : char) (s : pystr) :
  PyStr.contains sep s = false -> PyStr.split sep s = [s].
Proof.
  induction s as [|c s IH]; simpl; [reflexivity|].
  destruct (PyStr.char_eqb c sep); simpl; [discriminate|].
  intros H. now rewrite (IH H).
Qed.

Lemma split_app_clean (sep : char) (a rest : pystr) :
  PyStr.contains sep a = false ->
  PyStr.split sep (a ++ sep :: rest) = a :: PyStr.split sep rest.
Proof.
  induction a as [|c a IH]; simpl.
  - intros _. now rewrite char_eqb_refl.
  - destruct (PyStr.char_eqb c sep); simpl; [discriminate|].
    intros H. now rewrite (IH H).
Qed.

Lemma split_join (sep : char) (l : list pystr) :
  Forall (fun part => PyStr.contains sep part = false) l ->
  l <> [] ->
  PyStr.split sep (PyStr.join [sep] l) = l.
Proof.
  induction l as [|a l IH]; [congruence|].
  intros Hall _. inversion Hall as [|? ? Ha Hl]; subst.
  destruct l as [|b l].
  - simpl. apply split_clean, Ha.
  - change (PyStr.join [sep] (a :: b :: l))
      with (a ++ sep :: PyStr.join [sep] (b :: l)).
    rewrite split_app_clean by exact Ha.
    rewrite IH; [reflexivity | exact Hl | discriminate].
Qed.

Lemma split_snoc_separator (sep : char) (s : pystr) :
  PyStr.split sep (s ++ [sep]) = PyStr.split sep s ++ [[]].
Proof.
  induction s as [|c s IH]; simpl.
  - now rewrite char_eqb_refl.
  - rewrite IH. pose proof (split_nonempty sep s) as Hne.
    destruct (PyStr.char_eqb c sep); [reflexivity|].
    destruct (PyStr.split sep s); [congruence | reflexivity].
Qed.

Lemma valid_part_inv (part : pystr) :
  valid_part part = true ->
  keep_part part = true /\ PyStr.contains "/" part = false
  /\ exists c rest, part = c :: rest /\ c <> Latin "/".
Proof.
  unfold valid_part. rewrite andb_true_iff, negb_true_iff.
  intros [Hk Hc]. repeat split; try assumption.
  destruct part as [|c rest]; [discriminate|].
  exists c, rest. split; [reflexivity|].
  intros ->. simpl in Hc. discriminate.
Qed.

Lemma filter_keep_valid (l : list pystr) :
  Forall (fun part => valid_part part = true) l -> filter keep_part l = l.
Proof.
  induction 1 as [|a l Ha _ IH]; simpl; [reflexivity|].
  destruct (valid_part_inv a Ha) as [-> _]. now rewrite IH.
Qed.

(** The text of the components, joined: its fields are the components
    again, or nothing at all. *)
Lemma parse_tail_join (l : list pystr) :
  Forall (fun part => valid_part part = true) l ->
  parse_tail (PyStr.join (py "/") l) = l.
Proof.
  intros Hall. unfold parse_tail.
  destruct l as [|a l]; [reflexivity|].
  change (py "/") with [Latin "/"].
  rewrite split_join; [apply filter_keep_valid, Hall | | discriminate].
  eapply Forall_impl; [|exact Hall].
  intros part Hp. apply (valid_part_inv part Hp).
Qed.

Lemma join_head (l : list pystr) :
  Forall (fun part => valid_part part = true) l ->
  l = [] \/ exists c rest, PyStr.join (py "/") l = c :: rest /\ c <> Latin "/".
Proof.
  intros Hall. destruct l as [|a l]; [now left | right].
  inversion Hall as [|? ? Ha _]; subst.
  destruct (valid_part_inv a Ha) as (_ & _ & c & rest & -> & Hc).
  destruct l as [|b l].
  - now exists c, rest.
  - exists c. eexists. split; [reflexivity | exact Hc].
Qed.

(** [Path(str(p)) == p] *)
Lemma make_str (p : Path) : well_formed p -> make (str p) = p.
Proof.
  destruct p as [r t]. intros [Hroot Htail]. simpl in Hroot, Htail.
  pose proof (parse_tail_join t Htail) as Hparse.
  pose proof (join_head t Htail) as Hhead.
  unfold str, make. simpl root. simpl tail.
  destruct Hroot as [-> | [-> | ->]].
  - destruct Hhead as [-> | (c & rest & E & Hc)]; [reflexivity|].
    rewrite app_nil_l, E, <- E. f_equal; [|exact Hparse].
    rewrite E. destruct c as [[[] [] [] [] [] [] [] []] | low]; try reflexivity.
    now contradiction Hc.
  - change (py "/" ++ PyStr.join (py "/") t)
      with (Latin "/" :: PyStr.join (py "/") t).
    f_equal.
    + destruct Hhead as [-> | (c & rest & -> & Hc)]; [reflexivity|].
      destruct c as [[[] [] [] [] [] [] [] []] | low]; try reflexivity.
      now contradiction Hc.
    + unfold parse_tail in *. simpl. exact Hparse.
  - change (py "//" ++ PyStr.join (py "/") t)
      with (Latin "/" :: Latin "/" :: PyStr.join (py "/") t).
    f_equal.
    + destruct Hhead as [-> | (c & rest & -> & Hc)]; [reflexivity|].
      destruct c as [[[] [] [] [] [] [] [] []] | low]; try reflexivity.
      now contradiction Hc.
    + unfold parse_tail in *. simpl. exact Hparse.
Qed.

Lemma parse_root_cases (s : pystr) :
  parse_root s = [] \/ parse_root s = py "/" \/ parse_root s = py "//".
Proof.
  destruct s as [|a [|b [|c s]]]; simpl; auto;
    repeat match goal with
           | |- context [match ?x with _ => _ end] => destruct x; auto
           end.
Qed.

Lemma parse_tail_valid (s : pystr) :
  Forall (fun part => valid_part part = true) (parse_tail s).
Proof.
  unfold parse_tail. apply Forall_forall. intros part Hin.
  apply filter_In in Hin as [Hin Hkeep].
  pose proof (split_fields_clean "/" s) as Hall.
  rewrite Forall_forall in Hall.
  unfold valid_part. now rewrite Hkeep, (Hall part Hin).
Qed.

Lemma make_well_formed (s : pystr) : well_formed (make s).
Proof. split; [apply parse_root_cases | apply parse_tail_valid]. Qed.

Lemma child_well_formed (p : Path) (entry : pystr) :
  well_formed p -> valid_part entry = true -> well_formed (child p entry).
Proof.
  intros [Hr Ht] He. split; [exact Hr|].
  simpl. apply Forall_app. split; [exact Ht | now constructor].
Qed.

Lemma expanduser_well_formed (f : pystr -> pystr) (p q : Path) :
  well_formed p -> expanduser f p = Returned q -> well_formed q.
Proof.
  intros [Hr Ht]. unfold expanduser.
  destruct (root p) eqn:Er; [|intros E; injection E as <-; split; [now rewrite Er | exact Ht]].
  destruct (tail p) as [|first rest] eqn:Et;
    [intros E; injection E as <-; split; [now rewrite Er | now rewrite Et]|].
  destruct (PyStr.startswith first (py "~"));
    [|intros E; injection E as <-; split; [now rewrite Er | now rewrite Et]].
  destruct (PyStr.startswith (f first) (py "~")); [discriminate|].
  intros E; injection E as <-. split; [apply parse_root_cases|].
  simpl. apply Forall_app. split; [apply parse_tail_valid|].
  now inversion Ht.
Qed.

Lemma expanduser_stable (f : pystr -> pystr) (p : Path) :
  home_relative p = false -> expanduser f p = Returned p.
Proof.
  unfold home_relative, expanduser.
  destruct (root p); [|reflexivity].
  destruct (tail p); [reflexivity|]. now intros ->.
Qed.

Lemma absolute_not_home_relative (p : Path) :
  is_absolute p = true -> home_relative p = false.
Proof.
  unfold is_absolute, home_relative. destruct (root p); [discriminate | reflexivity].
Qed.

(** The path a query names is one [pathlib] builds. *)
Lemma parse_query_well_formed host argument prefs p f :
  parse_query host argument prefs = Returned (p, f) -> well_formed p.
Proof.
  unfold parse_query, path_and_filter.
  destruct (truthy argument && PyStr.contains "/" (text argument)).
  - simpl. destruct (expanduser _ _) as [q|] eqn:E; [|discriminate].
    simpl. intros H; injection H as <- _.
    eapply expanduser_well_formed; [apply make_well_formed | exact E].
  - destruct (dict_get prefs (py "fb_default_path")) as [d|]; [|discriminate].
    simpl. destruct (expanduser _ _) as [q|] eqn:E; [|discriminate].
    simpl. intros H; injection H as <- _.
    eapply expanduser_well_formed; [apply make_well_formed | exact E].
Qed.

Lemma contains_snoc (c : char) (s : pystr) :
  PyStr.contains c (s ++ [c]) = true.
Proof.
  unfold PyStr.contains. rewrite existsb_app. simpl.
  now rewrite char_eqb_refl, orb_true_r.
Qed.

(** Re-reading the argument of a descend query. *)
Lemma path_and_filter_descend (s : pystr) (prefs : preferences) :
  path_and_filter (Some (s ++ py "/")) prefs = Returned (make s, Some []).
Proof.
  change (py "/") with [Latin "/"].
  rewrite path_and_filter_separator by apply contains_snoc.
  rewrite split_snoc_separator, removelast_last, last_last.
  change [Latin "/"] with (py "/").
  change (py "/") with [Latin "/"] at 1. now rewrite join_split.
Qed.

(** C5 (amended). For a directory entry whose path is absolute, and
    more widely for one whose path [expanduser] leaves alone (no '~' at
    the start of a rootless path), the action is [SetUserQueryAction]
    with the text: keyword, a space, the text of the entry's path, '/',
    and the argument of that query (what follows the keyword and the
    space) parses back to the entry's path and the empty filter.  Under
    keyword "f" the directory /home/u/docs gives "f /home/u/docs/". *)
Theorem descend_query_roundtrip :
  (forall (host : Host) (prefs : preferences) (keyword : pystr)
          (child_path : Path),
      well_formed child_path ->
      is_absolute child_path = true \/ home_relative child_path = false ->
      is_dir host child_path = true ->
      on_enter (child_item host keyword child_path) =
        SetUserQueryAction (keyword ++ py " " ++ (str child_path ++ py "/"))
      /\ parse_query host (Some (str child_path ++ py "/")) prefs =
         Returned (child_path, Some []))
  /\ on_enter (child_item demo_host (py "f") (make (py "/home/u/docs"))) =
     SetUserQueryAction (py "f /home/u/docs/")
  /\ parse_query demo_host (Some (py "/home/u/docs/")) demo_prefs =
     Returned (make (py "/home/u/docs"), Some (py "")).
Proof.
  split; [|split; reflexivity].
  intros host prefs keyword p Hwf Habs Hdir. split.
  - unfold child_item, item_action. simpl. now rewrite Hdir.
  - unfold parse_query. rewrite path_and_filter_descend. simpl.
    rewrite make_str by exact Hwf.
    rewrite expanduser_stable; [reflexivity|].
    destruct Habs as [Habs | Hrel];
      [apply absolute_not_home_relative, Habs | exact Hrel].
Qed.

Lemma descend_query_roundtrip_witness :
  well_formed (make (py "/home/u/docs"))
  /\ (is_absolute (make (py "/home/u/docs")) = true
      \/ home_relative (make (py "/home/u/docs")) = false)
  /\ is_dir demo_host (make (py "/home/u/docs")) = true
  /\ on_enter (child_item demo_host (py "f") (make (py "/home/u/docs"))) =
     SetUserQueryAction
       (py "f" ++ py " " ++ (str (make (py "/home/u/docs")) ++ py "/"))
  /\ parse_query demo_host
       (Some (str (make (py "/home/u/docs")) ++ py "/")) demo_prefs =
     Returned (make (py "/home/u/docs"), Some []).
Proof.
  pose proof (make_well_formed (py "/home/u/docs")) as Hwf.
  split; [exact Hwf|]. split; [left; reflexivity|]. split; [reflexivity|].
  apply (proj1 descend_query_roundtrip demo_host demo_prefs (py "f")
           (make (py "/home/u/docs")) Hwf); [left|]; reflexivity.
Defined.

(** The claim C5 as stated fails for a directory named "~" under the
    relative base ".": its path has the text "~", the query is "f ~/",
    and parsing "~/" expands the '~' to the home directory.  The base
    "." is what the argument "/" parses to. *)
Lemma descend_tilde_counterexample :
  ~ (forall (host : Host) (prefs : preferences) (argument : option pystr)
            (base : Path) (f : option pystr) (entry : pystr),
        parse_query host argument prefs = Returned (base, f) ->
        valid_part entry = true ->
        is_dir host (child base entry) = true ->
        parse_query host (Some (str (child base entry) ++ py "/")) prefs =
        Returned (child base entry, Some [])).
Proof.
  intros H.
  specialize (H tilde_host demo_prefs (Some (py "/")) (make (py "."))
                (Some (py "")) (py "~") eq_refl eq_refl eq_refl).
  vm_compute in H. discriminate.
Qed.

(** The handler itself offers that query, and answers it with the home
    directory. *)
Example descend_tilde_demo :
  on_event tilde_host (demo_event (Some (py "/"))) demo_prefs =
    Returned
      [open_folder_item tilde_host (make (py "."));
       {| icon := DEFAULT_FOLDER_ICON;
          item_name := py "~";
          on_enter := SetUserQueryAction (py "f ~/") |}]
  /\ on_event tilde_host (demo_event (Some (py "~/"))) demo_prefs =
     Returned
       [open_folder_item tilde_host (make (py "/home/u"));
        child_item tilde_host (py "f") (make (py "/home/u/notes"))].
Proof. split; reflexivity. Qed.

(** ** The order of the sort keys *)

Lemma code_injective (a b : char) : PyStr.code a = PyStr.code b -> a = b.
Proof.
  assert (forall x y, nat_of_ascii x = nat_of_ascii y -> x = y) as Hinj.
  { intros x y H.
    rewrite <- (ascii_nat_embedding x), <- (ascii_nat_embedding y).
    now rewrite H. }
  destruct a as [x | x], b as [y | y]; simpl; intros H.
  - f_equal. apply Hinj, H.
  - pose proof (nat_ascii_bounded x). lia.
  - pose proof (nat_ascii_bounded y). lia.
  - f_equal. apply Hinj. lia.
Qed.

Lemma compare_flip (s t : pystr) :
  PyStr.compare t s = CompOpp (PyStr.compare s t).
Proof.
  revert t; induction s as [|a s IH]; intros [|b t]; simpl; try reflexivity.
  rewrite (Nat.compare_antisym (PyStr.code a) (PyStr.code b)).
  destruct (PyStr.code a ?= PyStr.code b); simpl; auto.
Qed.

Lemma compare_eq (s t : pystr) : PyStr.compare s t = Eq -> s = t.
Proof.
  revert t; induction s as [|a s IH]; intros [|b t]; simpl;
    try discriminate; [reflexivity|].
  destruct (PyStr.code a ?= PyStr.code b) eqn:E; try discriminate.
  apply Nat.compare_eq in E. apply code_injective in E.
  intros H. now rewrite E, (IH t H).
Qed.

Lemma compare_refl (s : pystr) : PyStr.compare s s = Eq.
Proof.
  induction s as [|a s IH]; simpl; [reflexivity|].
  now rewrite Nat.compare_refl.
Qed.

(** Not above, then not above: not above. *)
Lemma compare_le_trans (s t u : pystr) :
  PyStr.compare s t <> Gt -> PyStr.compare t u <> Gt ->
  PyStr.compare s u <> Gt.
Proof.
  revert t u; induction s as [|a s IH]; intros [|b t] [|c u]; simpl;
    try congruence.
  destruct (Nat.compare_spec (PyStr.code a) (PyStr.code b));
    destruct (Nat.compare_spec (PyStr.code b) (PyStr.code c));
    destruct (Nat.compare_spec (PyStr.code a) (PyStr.code c));
    try congruence; try lia.
  apply IH.
Qed.

Lemma key_le_spec (a b : sort_key) :
  key_le a b = true <-> key_compare a b <> Gt.
Proof.
  unfold key_le, key_lt, key_compare.
  destruct a as [[] s], b as [[] t]; simpl;
    try rewrite (compare_flip s t);
    try (destruct (PyStr.compare s t); simpl; split; congruence);
    split; congruence.
Qed.

Lemma key_le_total (a b : sort_key) : key_le a b = true \/ key_le b a = true.
Proof.
  rewrite !key_le_spec. unfold key_compare.
  destruct a as [[] s], b as [[] t]; simpl;
    try rewrite (compare_flip s t);
    try (destruct (PyStr.compare s t); simpl; (left; congruence) || (right; congruence));
    (left; congruence) || (right; congruence).
Qed.

Lemma key_le_trans (a b c : sort_key) :
  key_le a b = true -> key_le b c = true -> key_le a c = true.
Proof.
  rewrite !key_le_spec. unfold key_compare.
  destruct a as [[] s], b as [[] t], c as [[] u]; simpl;
    try congruence; apply compare_le_trans.
Qed.

Lemma key_le_antisym (a b : sort_key) :
  key_le a b = true -> key_le b a = true -> a = b.
Proof.
  rewrite !key_le_spec. unfold key_compare.
  destruct a as [[] s], b as [[] t]; simpl; try congruence;
    rewrite (compare_flip s t);
    destruct (PyStr.compare s t) eqn:E; simpl; try congruence;
    intros _ _; now rewrite (compare_eq s t E).
Qed.

(** ** [sorted] *)

Section SortedFacts.
Context {A : Type} (key : A -> sort_key).

Abbreviation le := (le_by key).

Lemma insert_by_perm (x : A) (l : list A) :
  Permutation (x :: l) (insert_by key x l).
Proof.
  induction l as [|y l IH]; simpl; [reflexivity|].
  destruct (key_lt (key y) (key x)); [|reflexivity].
  rewrite perm_swap. now constructor.
Qed.

Lemma sorted_perm (l : list A) : Permutation l (sorted key l).
Proof.
  induction l as [|x l IH]; simpl; [constructor|].
  rewrite <- insert_by_perm. now constructor.
Qed.

Lemma insert_by_sorted (x : A) (l : list A) :
  StronglySorted le l -> StronglySorted le (insert_by key x l).
Proof.
  induction 1 as [|y l Hs IH Hall]; simpl.
  - constructor; constructor.
  - destruct (key_lt (key y) (key x)) eqn:E.
    + constructor; [exact IH|].
      rewrite <- insert_by_perm. constructor; [|exact Hall].
      unfold le. destruct (key_le_total (key y) (key x)) as [H|H]; [exact H|].
      unfold key_le in H. rewrite E in H. discriminate.
    + assert (le x y) as Hxy by (unfold le, key_le; now rewrite E).
      constructor; [now constructor|].
      constructor; [exact Hxy|].
      eapply Forall_impl; [|exact Hall].
      intros z Hz. unfold le in *. eapply key_le_trans; eassumption.
Qed.

Lemma sorted_sorted (l : list A) : StronglySorted le (sorted key l).
Proof.
  induction l as [|x l IH]; simpl; [constructor|].
  apply insert_by_sorted, IH.
Qed.

Lemma strongly_sorted_filter (f : A -> bool) (l : list A) :
  StronglySorted le l -> StronglySorted le (filter f l).
Proof.
  induction 1 as [|x l Hs IH Hall]; simpl; [constructor|].
  destruct (f x); [|exact IH].
  constructor; [exact IH|].
  apply Forall_forall. intros y Hy. apply filter_In in Hy as [Hy _].
  rewrite Forall_forall in Hall. now apply Hall.
Qed.

Lemma strongly_sorted_firstn (n : nat) (l : list A) :
  StronglySorted le l -> StronglySorted le (firstn n l).
Proof.
  intros H. revert n. induction H as [|x l Hs IH Hall]; intros [|n]; simpl;
    try constructor.
  - apply IH.
  - apply Forall_forall. intros y Hy.
    rewrite Forall_forall in Hall. apply Hall.
    rewrite <- (firstn_skipn n l). apply in_or_app. now left.
Qed.

(** Two sorted arrangements of the same elements are the same list,
    when equal keys mean equal elements. *)
Lemma strongly_sorted_unique (l l' : list A) :
  (forall x y, In x l -> In y l -> key x = key y -> x = y) ->
  Permutation l l' ->
  StronglySorted le l -> StronglySorted le l' -> l = l'.
Proof.
  revert l'. induction l as [|x l IH]; intros l' Hinj Hperm Hs Hs'.
  - apply Permutation_nil in Hperm. now subst.
  - destruct l' as [|x' l'];
      [apply Permutation_sym, Permutation_nil in Hperm; discriminate|].
    inversion Hs as [|? ? Hsl Hall]; subst.
    inversion Hs' as [|? ? Hsl' Hall']; subst.
    rewrite Forall_forall in Hall, Hall'.
    assert (x = x') as <-.
    { assert (In x' (x :: l)) as Hin'
        by (eapply Permutation_in; [symmetry; exact Hperm | now left]).
      assert (In x (x' :: l')) as Hin
        by (eapply Permutation_in; [exact Hperm | now left]).
      destruct Hin' as [E | Hin']; [exact E|].
      destruct Hin as [E | Hin]; [now symmetry|].
      apply Hinj; [now left | now right |].
      apply key_le_antisym; [apply Hall, Hin' | apply Hall', Hin]. }
    f_equal. apply IH; try assumption.
    + intros y z Hy Hz. apply Hinj; now right.
    + eapply Permutation_cons_inv, Hperm.
Qed.

Lemma sorted_deterministic (l l' : list A) :
  (forall x y, In x l -> In y l -> key x = key y -> x = y) ->
  Permutation l l' -> sorted key l = sorted key l'.
Proof.
  intros Hinj Hperm. apply strongly_sorted_unique.
  - intros x y Hx Hy. apply Hinj;
      (eapply Permutation_in; [symmetry; apply sorted_perm | assumption]).
  - rewrite <- (sorted_perm l), <- (sorted_perm l'). exact Hperm.
  - apply sorted_sorted.
  - apply sorted_sorted.
Qed.

(** In a sorted list an earlier element is not above a later one. *)
Lemma strongly_sorted_nth (l : list A) (i j : nat) (x y : A) :
  StronglySorted le l -> i < j ->
  nth_error l i = Some x -> nth_error l j = Some y -> le x y.
Proof.
  intros H. revert i j. induction H as [|z l Hs IH Hall]; intros i j Hij Hi Hj.
  - destruct i; discriminate.
  - destruct j as [|j]; [lia|]. simpl in Hj.
    destruct i as [|i]; simpl in Hi.
    + injection Hi as ->. rewrite Forall_forall in Hall.
      apply Hall. eapply nth_error_In, Hj.
    + apply (IH i j); [lia | assumption | assumption].
Qed.
End SortedFacts.

(** ** The loop over the children *)

Section Loop.
Variables (host : Host) (keyword : pystr) (hidden : bool)
          (current_filter : option pystr).

Abbreviation item := (child_item host keyword).
Abbreviation loop := (children_loop host keyword hidden current_filter).

(** When no later count can equal the limit, the loop keeps every
    child that passes. *)
Lemma children_loop_unlimited (limit : limit_value) (children : list Path) :
  forall items_count,
    (forall k, (items_count < k)%Z -> limit_reached limit k = false) ->
    loop limit children items_count =
    map item (filter (passes hidden current_filter) children).
Proof.
  induction children as [|c rest IH]; intros n Hlim;
    cbn [children_loop filter map]; [reflexivity|].
  unfold passes at 1.
  destruct (hidden || negb (PyStr.startswith (name c) (py ".")));
    cbn [andb]; [|apply IH, Hlim].
  destruct (matches_filter (name c) current_filter); [|apply IH, Hlim].
  rewrite Hlim by lia. cbn [map]. f_equal.
  apply IH. intros k Hk. apply Hlim. lia.
Qed.

(** Below a limit [n], the loop keeps the first [n - items_count]
    children that pass. *)
Lemma children_loop_limited (n : Z) (children : list Path) :
  forall items_count,
    (items_count < n)%Z ->
    loop (LimitInt n) children items_count =
    map item (firstn (Z.to_nat (n - items_count))
                (filter (passes hidden current_filter) children)).
Proof.
  induction children as [|c rest IH]; intros k Hk;
    cbn [children_loop filter map].
  - now rewrite firstn_nil.
  - unfold passes at 1.
    destruct (hidden || negb (PyStr.startswith (name c) (py ".")));
      cbn [andb]; [|apply IH, Hk].
    destruct (matches_filter (name c) current_filter); [|apply IH, Hk].
    replace (Z.to_nat (n - k)) with (S (Z.to_nat (n - (k + 1)))) by lia.
    cbn [firstn map limit_reached].
    destruct (Z.eqb_spec (k + 1) n) as [E | E].
    + replace (Z.to_nat (n - (k + 1))) with 0 by lia. reflexivity.
    + f_equal. apply IH. lia.
Qed.
End Loop.

(** ** The handler as a whole *)

Lemma on_event_returns host event prefs base f children :
  parse_query host (get_argument event) prefs = Returned (base, f) ->
  iterdir host base = Returned children ->
  on_event host event prefs =
  Returned (synthetic_items host base f
            ++ children_loop host (get_keyword event) (show_hidden prefs) f
                 (items_limit prefs) (sorted (child_key host) children) 0).
Proof.
  intros Hp Hi. unfold on_event. rewrite Hp. simpl. rewrite Hi. reflexivity.
Qed.

Lemma on_event_raises host event prefs base f e :
  parse_query host (get_argument event) prefs = Returned (base, f) ->
  iterdir host base = Raised e ->
  on_event host event prefs = Raised e.
Proof.
  intros Hp Hi. unfold on_event. rewrite Hp. simpl. rewrite Hi. reflexivity.
Qed.

Lemma iterdir_listdir host base :
  iterdir host base =
  match listdir host base with
  | Returned names => Returned (map (child base) names)
  | Raised e => Raised e
  end.
Proof. unfold iterdir. now destruct (listdir host base). Qed.

(** The entries the loop lists, by the configured limit: always a front
    part of the passing children. *)
Lemma children_loop_entries host keyword prefs f (children : list Path) :
  exists entries,
    children_loop host keyword (show_hidden prefs) f (items_limit prefs)
      (sorted (child_key host) children) 0 =
    map (child_item host keyword) entries
    /\ (forall N, items_limit prefs = LimitInt N -> (1 <= N)%Z ->
        entries = firstn (Z.to_nat N) (passing host prefs f children))
    /\ ((forall N, items_limit prefs = LimitInt N -> (N <= 0)%Z) ->
        entries = passing host prefs f children)
    /\ exists k, entries = firstn k (passing host prefs f children).
Proof.
  assert (exists k, passing host prefs f children =
                    firstn k (passing host prefs f children)) as Hall
    by (eexists; symmetry; apply firstn_all).
  destruct (items_limit prefs) as [|N|s] eqn:E.
  - exists (passing host prefs f children). split; [|split; [|split]].
    + apply children_loop_unlimited. reflexivity.
    + discriminate.
    + reflexivity.
    + exact Hall.
  - destruct (Z.leb_spec 1 N) as [H1 | H0].
    + exists (firstn (Z.to_nat N) (passing host prefs f children)).
      split; [|split; [|split]].
      * rewrite children_loop_limited by lia.
        now rewrite Z.sub_0_r.
      * intros M HM _. injection HM as <-. reflexivity.
      * intros H. specialize (H N eq_refl). lia.
      * now eexists.
    + exists (passing host prefs f children). split; [|split; [|split]].
      * apply children_loop_unlimited. intros k Hk. simpl.
        apply Z.eqb_neq. lia.
      * intros M HM HM1. injection HM as <-. lia.
      * reflexivity.
      * exact Hall.
  - exists (passing host prefs f children). split; [|split; [|split]].
    + apply children_loop_unlimited. reflexivity.
    + discriminate.
    + reflexivity.
    + exact Hall.
Qed.

Lemma items_limit_absent (prefs : preferences) :
  dict_get prefs (py "fb_items_limit") = None -> items_limit prefs = LimitNone.
Proof. unfold items_limit. now intros ->. Qed.

Lemma items_limit_not_numeric (prefs : preferences) (s : pystr) :
  dict_get prefs (py "fb_items_limit") = Some s -> PyStr.int s = None ->
  items_limit prefs = LimitStr s.
Proof. unfold items_limit. now intros -> ->. Qed.

(** C7 (amended). When the handler returns, its list is the synthetic
    items followed by the items of the listed entries.  For a configured
    limit N of at least 1 the listed entries are the first N children
    that pass the visibility and the filter rule, in sorted order, so at
    most N of them; the synthetic item is outside that count.  When the
    limit is absent, is not a number, or is a number below 1, every
    passing child is listed. *)
Theorem on_event_limit :
  forall (host : Host) (event : KeywordQueryEvent) (prefs : preferences)
         (base : Path) (f : option pystr) (children : list Path),
    parse_query host (get_argument event) prefs = Returned (base, f) ->
    iterdir host base = Returned children ->
    exists entries : list Path,
      on_event host event prefs =
        Returned (synthetic_items host base f
                  ++ map (child_item host (get_keyword event)) entries)
      /\ (forall N, items_limit prefs = LimitInt N -> (1 <= N)%Z ->
          entries = firstn (Z.to_nat N) (passing host prefs f children)
          /\ (Z.of_nat (List.length entries) <= N)%Z)
      /\ (forall N, items_limit prefs = LimitInt N -> (N <= 0)%Z ->
          entries = passing host prefs f children)
      /\ (dict_get prefs (py "fb_items_limit") = None ->
          entries = passing host prefs f children)
      /\ (forall s, dict_get prefs (py "fb_items_limit") = Some s ->
          PyStr.int s = None ->
          entries = passing host prefs f children).
Proof.
  intros host event prefs base f children Hp Hi.
  destruct (children_loop_entries host (get_keyword event) prefs f children)
    as (entries & Hloop & Hpos & Hrest & _).
  exists entries. rewrite (on_event_returns _ _ _ _ _ _ Hp Hi), Hloop.
  split; [reflexivity|]. split; [|split; [|split]].
  - intros N HN H1. rewrite (Hpos N HN H1). split; [reflexivity|].
    pose proof (firstn_le_length (Z.to_nat N) (passing host prefs f children)).
    lia.
  - intros N HN H0. apply Hrest. intros M HM.
    rewrite HN in HM. injection HM as <-. exact H0.
  - intros Habs. apply Hrest. intros M HM.
    rewrite (items_limit_absent _ Habs) in HM. discriminate.
  - intros s Hs Hint. apply Hrest. intros M HM.
    rewrite (items_limit_not_numeric _ _ Hs Hint) in HM. discriminate.
Qed.

(** With the limit "2" and no filter, /home/u shows the folder item and
    two entries. *)
Lemma on_event_limit_witness :
  parse_query demo_host (get_argument (demo_event None)) demo_prefs =
    Returned (make (py "/home/u"), None)
  /\ iterdir demo_host (make (py "/home/u")) =
     Returned (map (child (make (py "/home/u")))
                 [py "notes"; py "docs"; py "a.png"; py ".git"; py "Zed"])
  /\ items_limit demo_prefs = LimitInt 2
  /\ exists entries : list Path,
      on_event demo_host (demo_event None) demo_prefs =
        Returned (synthetic_items demo_host (make (py "/home/u")) None
                  ++ map (child_item demo_host (py "f")) entries)
      /\ (Z.of_nat (List.length entries) <= 2)%Z.
Proof.
  split; [reflexivity|]. split; [reflexivity|]. split; [reflexivity|].
  destruct (on_event_limit demo_host (demo_event None) demo_prefs
              (make (py "/home/u")) None
              (map (child (make (py "/home/u")))
                 [py "notes"; py "docs"; py "a.png"; py ".git"; py "Zed"])
              eq_refl eq_refl)
    as (entries & Hev & Hpos & _).
  exists entries. split; [exact Hev|].
  exact (proj2 (Hpos 2%Z eq_refl ltac:(lia))).
Defined.

Example on_event_limit_two :
  option_map (@List.length _)
    (match on_event demo_host (demo_event None) demo_prefs with
     | Returned items => Some items
     | Raised _ => None
     end) = Some 3.
Proof. reflexivity. Qed.

(** The claim C7 as stated fails at the limit "0": the count is compared
    with the limit after it was raised, so it never equals 0 and nothing
    is cut. *)
Lemma limit_zero_counterexample :
  ~ (forall (host : Host) (event : KeywordQueryEvent) (prefs : preferences)
            (base : Path) (f : option pystr) (children : list Path) (N : Z),
        parse_query host (get_argument event) prefs = Returned (base, f) ->
        iterdir host base = Returned children ->
        items_limit prefs = LimitInt N ->
        exists entries : list Path,
          on_event host event prefs =
            Returned (synthetic_items host base f
                      ++ map (child_item host (get_keyword event)) entries)
          /\ (Z.of_nat (List.length entries) <= N)%Z).
Proof.
  intros H.
  destruct (H demo_host (demo_event (Some (py "/home/u/o")))
              [(py "fb_items_limit", py "0")]
              (make (py "/home/u")) (Some (py "o"))
              (map (child (make (py "/home/u")))
                 [py "notes"; py "docs"; py "a.png"; py ".git"; py "Zed"])
              0%Z eq_refl eq_refl eq_refl)
    as (entries & Hev & Hlen).
  destruct entries as [|e entries]; [|simpl in Hlen; lia].
  vm_compute in Hev. discriminate.
Qed.

(** A limit text that [int] rejects stays a text: the separator U+001C
    is whitespace for [str.strip] but not for [int], so "\x1c2" sets no
    limit, while "\xa02" reads as 2. *)
Example limit_separator_text :
  items_limit [(py "fb_items_limit", [Latin "028"; Latin "2"])] =
    LimitStr [Latin "028"; Latin "2"]
  /\ items_limit [(py "fb_items_limit", [Latin "160"; Latin "2"])] =
     LimitInt 2.
Proof. split; reflexivity. Qed.

Example limit_zero_lists_all :
  on_event demo_host (demo_event (Some (py "/home/u/o")))
    [(py "fb_items_limit", py "0")] =
  Returned
    [child_item demo_host (py "f") (make (py "/home/u/docs"));
     child_item demo_host (py "f") (make (py "/home/u/notes"))].
Proof. reflexivity. Qed.

(** C8 (amended). When the directory of the query cannot be listed, the
    handler returns no result list: the exception of the enumeration
    leaves [on_event] as it was raised.  Nothing in [on_event] catches
    it. *)
Theorem on_event_path_unavailable :
  forall (host : Host) (event : KeywordQueryEvent) (prefs : preferences)
         (base : Path) (f : option pystr) (e : exn),
    parse_query host (get_argument event) prefs = Returned (base, f) ->
    listdir host base = Raised e ->
    on_event host event prefs = Raised e.
Proof.
  intros host event prefs base f e Hp Hl.
  apply (on_event_raises _ _ _ _ _ _ Hp).
  rewrite iterdir_listdir. now rewrite Hl.
Qed.

Lemma on_event_path_unavailable_witness :
  parse_query demo_host (get_argument (demo_event (Some (py "/nope/"))))
    demo_prefs = Returned (make (py "/nope"), Some (py ""))
  /\ listdir demo_host (make (py "/nope")) = Raised FileNotFoundError
  /\ on_event demo_host (demo_event (Some (py "/nope/"))) demo_prefs =
     Raised FileNotFoundError.
Proof.
  split; [reflexivity|]. split; [reflexivity|].
  apply (on_event_path_unavailable demo_host
           (demo_event (Some (py "/nope/"))) demo_prefs
           (make (py "/nope")) (Some (py "")) FileNotFoundError);
    reflexivity.
Defined.

(** The claim C8 as stated fails: for a missing directory, and for a
    path that is a file, no result list comes back. *)
Lemma path_unavailable_counterexample :
  ~ (forall (host : Host) (event : KeywordQueryEvent) (prefs : preferences)
            (base : Path) (f : option pystr) (e : exn),
        parse_query host (get_argument event) prefs = Returned (base, f) ->
        listdir host base = Raised e ->
        exists items, on_event host event prefs = Returned items).
Proof.
  intros H.
  destruct (H demo_host (demo_event (Some (py "/home/u/notes/"))) demo_prefs
              (make (py "/home/u/notes")) (Some (py "")) NotADirectoryError
              eq_refl eq_refl)
    as (items & Hev).
  vm_compute in Hev. discriminate.
Qed.

(** ** The order of the listing *)

Lemma name_child (base : Path) (entry : pystr) : name (child base entry) = entry.
Proof. unfold name, child. simpl. apply last_last. Qed.

Lemma child_key_injective host (base : Path) (names : list pystr) :
  forall x y,
    In x (map (child base) names) -> In y (map (child base) names) ->
    child_key host x = child_key host y -> x = y.
Proof.
  intros x y Hx Hy Hk.
  apply in_map_iff in Hx as (n & <- & _).
  apply in_map_iff in Hy as (m & <- & _).
  unfold child_key in Hk. rewrite !name_child in Hk. congruence.
Qed.

Lemma passing_sorted host prefs f (children : list Path) (k : nat) :
  StronglySorted (le_by (child_key host))
    (firstn k (passing host prefs f children)).
Proof.
  apply strongly_sorted_firstn, strongly_sorted_filter, sorted_sorted.
Qed.

Lemma passing_incl host prefs f (children : list Path) (k : nat) :
  incl (firstn k (passing host prefs f children)) children.
Proof.
  intros x Hx.
  assert (In x (passing host prefs f children)) as Hin.
  { rewrite <- (firstn_skipn k (passing host prefs f children)).
    apply in_or_app. now left. }
  unfold passing in Hin. apply filter_In in Hin as [Hin _].
  eapply Permutation_in; [symmetry; apply sorted_perm | exact Hin].
Qed.

(** The handler reads the host's enumeration only through [sorted]. *)
Lemma children_loop_host host host' keyword hidden f limit children :
  is_dir host' = is_dir host ->
  theme_icon host' = theme_icon host ->
  forall items_count,
    children_loop host' keyword hidden f limit children items_count =
    children_loop host keyword hidden f limit children items_count.
Proof.
  intros Hd Ht. induction children as [|c rest IH]; intros n;
    cbn [children_loop]; [reflexivity|].
  rewrite !IH.
  unfold child_item, item_action, get_icon_for_file. now rewrite Hd, Ht.
Qed.

Lemma on_event_enumeration_order host host' event prefs base f names names' :
  parse_query host (get_argument event) prefs = Returned (base, f) ->
  listdir host base = Returned names ->
  os_expanduser host' = os_expanduser host ->
  is_dir host' = is_dir host ->
  theme_icon host' = theme_icon host ->
  listdir host' base = Returned names' ->
  Permutation names names' ->
  on_event host' event prefs = on_event host event prefs.
Proof.
  intros Hp Hl Ho Hd Ht Hl' Hperm.
  assert (parse_query host' (get_argument event) prefs = Returned (base, f))
    as Hp' by (unfold parse_query in *; now rewrite Ho).
  rewrite (on_event_returns host event prefs base f (map (child base) names))
    by (try assumption; rewrite iterdir_listdir; now rewrite Hl).
  rewrite (on_event_returns host' event prefs base f (map (child base) names'))
    by (try assumption; rewrite iterdir_listdir; now rewrite Hl').
  f_equal. f_equal.
  - unfold synthetic_items, open_folder_item, get_icon_for_file.
    now rewrite Hd, Ht.
  - rewrite (children_loop_host host host') by assumption.
    f_equal. unfold child_key. rewrite Hd.
    symmetry. apply sorted_deterministic.
    + apply (child_key_injective host).
    + apply Permutation_map, Hperm.
Qed.

(** C6. When the handler returns, the entries it lists (after the
    synthetic items) are children of the directory in ascending order of
    the key (is-not-directory, name): every directory comes before every
    file, and within directories and within files the names ascend in
    Python's string order.  The list does not depend on the order in
    which the system enumerates the directory. *)
Theorem on_event_sorted :
  forall (host : Host) (event : KeywordQueryEvent) (prefs : preferences)
         (base : Path) (f : option pystr) (names : list pystr),
    parse_query host (get_argument event) prefs = Returned (base, f) ->
    listdir host base = Returned names ->
    exists entries : list Path,
      on_event host event prefs =
        Returned (synthetic_items host base f
                  ++ map (child_item host (get_keyword event)) entries)
      /\ incl entries (map (child base) names)
      /\ StronglySorted (le_by (child_key host)) entries
      /\ (forall i j a b,
             nth_error entries i = Some a -> nth_error entries j = Some b ->
             is_dir host a = true -> is_dir host b = false -> i < j)
      /\ (forall i j a b,
             nth_error entries i = Some a -> nth_error entries j = Some b ->
             is_dir host a = is_dir host b -> i < j ->
             PyStr.compare (name a) (name b) <> Gt)
      /\ (forall (host' : Host) (names' : list pystr),
             os_expanduser host' = os_expanduser host ->
             is_dir host' = is_dir host ->
             theme_icon host' = theme_icon host ->
             listdir host' base = Returned names' ->
             Permutation names names' ->
             on_event host' event prefs = on_event host event prefs).
Proof.
  intros host event prefs base f names Hp Hl.
  assert (iterdir host base = Returned (map (child base) names)) as Hi
    by (rewrite iterdir_listdir; now rewrite Hl).
  destruct (children_loop_entries host (get_keyword event) prefs f
              (map (child base) names))
    as (entries & Hloop & _ & _ & k & Hk).
  assert (StronglySorted (le_by (child_key host)) entries) as Hsorted
    by (rewrite Hk; apply passing_sorted).
  exists entries.
  split; [now rewrite (on_event_returns _ _ _ _ _ _ Hp Hi), Hloop|].
  split; [rewrite Hk; apply passing_incl|].
  split; [exact Hsorted|]. split; [|split].
  - intros i j a b Ha Hb Hda Hdb.
    destruct (Nat.lt_total i j) as [Hlt | [Heq | Hgt]]; [exact Hlt | |].
    + subst j. rewrite Ha in Hb. injection Hb as <-. congruence.
    + pose proof (strongly_sorted_nth (child_key host) entries j i b a
                    Hsorted Hgt Hb Ha) as Hle.
      unfold le_by, child_key in Hle. rewrite Hda, Hdb in Hle. discriminate.
  - intros i j a b Ha Hb Hd Hlt.
    pose proof (strongly_sorted_nth (child_key host) entries i j a b
                  Hsorted Hlt Ha Hb) as Hle.
    apply key_le_spec in Hle. unfold child_key, key_compare in Hle.
    simpl in Hle. rewrite Hd in Hle.
    destruct (is_dir host b); exact Hle.
  - intros host' names' Ho Hd Ht Hl' Hperm.
    eapply on_event_enumeration_order; eassumption.
Qed.

Lemma on_event_sorted_witness :
  parse_query demo_host (get_argument (demo_event None)) demo_prefs =
    Returned (make (py "/home/u"), None)
  /\ listdir demo_host (make (py "/home/u")) =
     Returned [py "notes"; py "docs"; py "a.png"; py ".git"; py "Zed"]
  /\ on_event demo_host_reordered (demo_event None) demo_prefs =
     on_event demo_host (demo_event None) demo_prefs.
Proof.
  split; [reflexivity|]. split; [reflexivity|].
  destruct (on_event_sorted demo_host (demo_event None) demo_prefs
              (make (py "/home/u")) None
              [py "notes"; py "docs"; py "a.png"; py ".git"; py "Zed"]
              eq_refl eq_refl)
    as (entries & _ & _ & _ & _ & _ & Hdet).
  apply (Hdet demo_host_reordered
           [py "Zed"; py ".git"; py "a.png"; py "docs"; py "notes"]);
    try reflexivity.
  apply Permutation_rev.
Defined.

(** ** The synthetic item *)

Lemma str_injective (p q : Path) :
  well_formed p -> well_formed q -> str p = str q -> p = q.
Proof.
  intros Hp Hq E. rewrite <- (make_str p Hp), <- (make_str q Hq). now rewrite E.
Qed.

Lemma str_child_differs (base : Path) (entry : pystr) :
  well_formed base -> valid_part entry = true ->
  str (child base entry) <> str base.
Proof.
  intros Hb He E.
  apply str_injective in E;
    [| apply child_well_formed; assumption | exact Hb].
  apply (f_equal tail) in E. simpl in E.
  apply (f_equal (@List.length _)) in E.
  rewrite length_app in E. simpl in E. lia.
Qed.

Lemma child_item_not_folder host keyword (base : Path) (entry : pystr) :
  well_formed base -> valid_part entry = true ->
  opens_folder base (child_item host keyword (child base entry)) = false.
Proof.
  intros Hb He. unfold opens_folder, child_item, item_action. simpl.
  destruct (is_dir host (child base entry)); [reflexivity|].
  destruct (PyStr.eqb (str (child base entry)) (str base)) eqn:E;
    [|reflexivity].
  apply pystr_eqb_eq in E. now apply str_child_differs in E.
Qed.

Lemma open_folder_item_opens host (base : Path) :
  opens_folder base (open_folder_item host base) = true.
Proof. unfold opens_folder. simpl. now apply pystr_eqb_eq. Qed.

Lemma filter_none (A : Type) (g : A -> bool) (l : list A) :
  Forall (fun x => g x = false) l -> filter g l = [].
Proof.
  induction 1 as [|x l Hx _ IH]; simpl; [reflexivity|]. now rewrite Hx.
Qed.

(** C9. When the handler returns, its list is the synthetic items
    followed by the items of the listed entries.  With an empty (or
    absent) filter the synthetic items are the one "open folder" item,
    which is therefore first; with a non-empty filter there is none.
    Its action is [OpenAction] on the base path.  No listed entry has
    that action, so the list holds exactly one such item when the filter
    is empty and none otherwise.  The item is added before the loop that
    applies the filter and counts towards the limit. *)
Theorem open_folder_item_invariant :
  forall (host : Host) (event : KeywordQueryEvent) (prefs : preferences)
         (base : Path) (f : option pystr) (names : list pystr),
    parse_query host (get_argument event) prefs = Returned (base, f) ->
    listdir host base = Returned names ->
    Forall (fun entry => valid_part entry = true) names ->
    exists (entries : list Path) (items : list ExtensionResultItem),
      on_event host event prefs = Returned items
      /\ items = synthetic_items host base f
                 ++ map (child_item host (get_keyword event)) entries
      /\ (truthy f = false ->
          synthetic_items host base f = [open_folder_item host base]
          /\ hd_error items = Some (open_folder_item host base))
      /\ (truthy f = true -> synthetic_items host base f = [])
      /\ on_enter (open_folder_item host base) = OpenAction (str base)
      /\ Forall (fun child_path =>
                   opens_folder base
                     (child_item host (get_keyword event) child_path) = false)
           entries
      /\ List.length (filter (opens_folder base) items) =
         (if truthy f then 0 else 1).
Proof.
  intros host event prefs base f names Hp Hl Hvalid.
  pose proof (parse_query_well_formed _ _ _ _ _ Hp) as Hwf.
  assert (iterdir host base = Returned (map (child base) names)) as Hi
    by (rewrite iterdir_listdir; now rewrite Hl).
  destruct (children_loop_entries host (get_keyword event) prefs f
              (map (child base) names))
    as (entries & Hloop & _ & _ & k & Hk).
  pose proof (on_event_returns _ _ _ _ _ _ Hp Hi) as Hev.
  rewrite Hloop in Hev.
  assert (incl entries (map (child base) names)) as Hincl
    by (rewrite Hk; apply passing_incl).
  assert (Forall (fun child_path =>
                    opens_folder base
                      (child_item host (get_keyword event) child_path) = false)
            entries) as Hnot.
  { apply Forall_forall. intros p Hin. apply Hincl in Hin.
    apply in_map_iff in Hin as (n & <- & Hn).
    rewrite Forall_forall in Hvalid.
    apply child_item_not_folder; [exact Hwf | apply Hvalid, Hn]. }
  exists entries. eexists. split; [exact Hev|]. split; [reflexivity|].
  unfold synthetic_items.
  split; [intros ->; split; reflexivity|].
  split; [now intros ->|]. split; [reflexivity|]. split; [exact Hnot|].
  rewrite filter_app, length_app.
  rewrite (filter_none _ (opens_folder base)
             (map (child_item host (get_keyword event)) entries))
    by (apply Forall_map; exact Hnot).
  destruct (truthy f); simpl; [reflexivity|].
  now rewrite open_folder_item_opens.
Qed.

Lemma open_folder_item_invariant_witness :
  parse_query demo_host (get_argument (demo_event None)) demo_prefs =
    Returned (make (py "/home/u"), None)
  /\ listdir demo_host (make (py "/home/u")) =
     Returned [py "notes"; py "docs"; py "a.png"; py ".git"; py "Zed"]
  /\ Forall (fun entry => valid_part entry = true)
       [py "notes"; py "docs"; py "a.png"; py ".git"; py "Zed"]
  /\ exists items,
      on_event demo_host (demo_event None) demo_prefs = Returned items
      /\ List.length (filter (opens_folder (make (py "/home/u"))) items) = 1.
Proof.
  assert (Forall (fun entry => valid_part entry = true)
            [py "notes"; py "docs"; py "a.png"; py ".git"; py "Zed"]) as Hv
    by (repeat constructor).
  split; [reflexivity|]. split; [reflexivity|]. split; [exact Hv|].
  destruct (open_folder_item_invariant demo_host (demo_event None) demo_prefs
              (make (py "/home/u")) None
              [py "notes"; py "docs"; py "a.png"; py ".git"; py "Zed"]
              eq_refl eq_refl Hv)
    as (entries & items & Hev & _ & _ & _ & _ & _ & Hcount).
  exists items. split; [exact Hev | exact Hcount].
Defined.

(** With a filter there is no folder item; without one it is first and
    outside the limit of 2. *)
Example open_folder_item_demo :
  on_event demo_host (demo_event (Some (py "o"))) demo_prefs =
    Returned
      [child_item demo_host (py "f") (make (py "/home/u/docs"));
       child_item demo_host (py "f") (make (py "/home/u/notes"))]
  /\ on_event demo_host (demo_event None) demo_prefs =
     Returned
       [open_folder_item demo_host (make (py "/home/u"));
        child_item demo_host (py "f") (make (py "/home/u/docs"));
        child_item demo_host (py "f") (make (py "/home/u/Zed"))].
Proof. split; reflexivity. Qed.

(** * Further properties *)

(** ** The matcher as a subsequence test *)

Lemma filter_loop_same (c : char) (s f : pystr) :
  filter_loop (c :: s) (c :: f) = filter_loop (c :: s) f.
Proof. simpl. now rewrite char_eqb_refl. Qed.

Lemma filter_loop_other (x c : char) (s f : pystr) :
  x <> c -> filter_loop (x :: s) (c :: f) = filter_loop s (c :: f).
Proof.
  intros N. simpl.
  destruct (PyStr.char_eqb x c) eqn:E; [apply char_eqb_true in E; contradiction|].
  destruct (PyStr.index s c); reflexivity.
Qed.

Lemma filter_loop_nil (f : pystr) : filter_loop [] f = true <-> f = [].
Proof. destruct f; simpl; split; congruence. Qed.

Lemma subsequence_nil_r (f : pystr) : subsequence f [] <-> f = [].
Proof.
  split; [inversion 1; reflexivity | intros ->; constructor].
Qed.

Lemma subsequence_tail (c : char) (f s : pystr) :
  subsequence (c :: f) s -> subsequence f s.
Proof.
  intros H. remember (c :: f) as g eqn:E. revert c f E.
  induction H as [s | d g s H IH | x g s H IH]; intros c f E.
  - discriminate.
  - injection E as -> ->. now apply subsequence_skip.
  - apply subsequence_skip. eapply IH, E.
Qed.

Lemma subsequence_cons_other (x c : char) (f s : pystr) :
  x <> c -> (subsequence (c :: f) (x :: s) <-> subsequence (c :: f) s).
Proof.
  intros N. split; [|apply subsequence_skip].
  inversion 1; subst; [contradiction | assumption].
Qed.

Lemma subsequence_cons_same (c : char) (f s : pystr) :
  subsequence (c :: f) (c :: s) <-> subsequence f s.
Proof.
  split; [|apply subsequence_take].
  inversion 1; subst; [assumption | eapply subsequence_tail; eassumption].
Qed.

Lemma squeeze_cons (c : char) (f : pystr) :
  exists g, squeeze (c :: f) = c :: g.
Proof.
  revert c; induction f as [|d f IH]; intros c; simpl; [now exists []|].
  destruct (PyStr.char_eqb c d) eqn:E; [|eexists; reflexivity].
  apply char_eqb_true in E; subst d. apply IH.
Qed.

Lemma squeeze_nil (f : pystr) : squeeze f = [] <-> f = [].
Proof.
  split; [|now intros ->].
  destruct f as [|c f]; [reflexivity|].
  destruct (squeeze_cons c f) as [g ->]. discriminate.
Qed.

(** The loop of [matches_filter] finds its filter exactly when the
    squeezed filter is a subsequence of the text. *)
Lemma filter_loop_subsequence (s f : pystr) :
  filter_loop s f = true <-> subsequence (squeeze f) s.
Proof.
  revert f; induction s as [|x s IHs]; intros f.
  - now rewrite filter_loop_nil, subsequence_nil_r, squeeze_nil.
  - induction f as [|c f IHf]; [simpl; split; [constructor | reflexivity]|].
    destruct (char_dec x c) as [<- | N].
    + rewrite filter_loop_same.
      destruct f as [|d f]; [simpl; split; [repeat constructor | reflexivity]|].
      change (squeeze (x :: d :: f))
        with (if PyStr.char_eqb x d then squeeze (d :: f) else x :: squeeze (d :: f)).
      destruct (PyStr.char_eqb x d) eqn:E.
      * apply char_eqb_true in E; subst d. exact IHf.
      * assert (x <> d) as N
          by (intros ->; rewrite char_eqb_refl in E; discriminate).
        rewrite (filter_loop_other x d s f N), subsequence_cons_same.
        apply IHs.
    + rewrite (filter_loop_other x c s f N), IHs.
      destruct (squeeze_cons c f) as [g ->].
      symmetry. apply subsequence_cons_other, N.
Qed.

(** X1. For a non-empty filter, [matches_filter] accepts a name exactly
    when the normalized filter, with each run of equal characters cut
    down to one, is an ordered subsequence of the lower-cased name. *)
Theorem matches_filter_subsequence :
  forall (file_name filter_ : pystr),
    filter_ <> [] ->
    (matches_filter file_name (Some filter_) = true <->
     subsequence (squeeze (normalize_filter filter_)) (PyStr.lower file_name)).
Proof.
  intros file_name [|c f] Hne; [congruence|].
  unfold matches_filter. apply filter_loop_subsequence.
Qed.

Lemma matches_filter_subsequence_witness :
  py "A  a" <> []
  /\ (matches_filter (py "Data") (Some (py "A  a")) = true <->
      subsequence (squeeze (normalize_filter (py "A  a")))
        (PyStr.lower (py "Data"))).
Proof.
  split; [discriminate|].
  apply (matches_filter_subsequence (py "Data") (py "A  a")). discriminate.
Defined.

Lemma subsequence_refl (s : pystr) : subsequence s s.
Proof. induction s; constructor; assumption. Qed.

Lemma subsequence_trans (a b c : pystr) :
  subsequence a b -> subsequence b c -> subsequence a c.
Proof.
  intros Hab Hbc. revert a Hab.
  induction Hbc as [s | x g s H IH | x g s H IH]; intros a Hab.
  - apply subsequence_nil_r in Hab. subst. constructor.
  - inversion Hab; subst.
    + constructor.
    + apply subsequence_take, IH. assumption.
    + apply subsequence_skip, IH. assumption.
  - apply subsequence_skip, IH, Hab.
Qed.

Lemma subsequence_app_l (g pre s : pystr) :
  subsequence g s -> subsequence g (pre ++ s).
Proof.
  intros H. induction pre as [|x pre IH]; [exact H|].
  now apply subsequence_skip.
Qed.

Lemma subsequence_app_r (g s post : pystr) :
  subsequence g s -> subsequence g (s ++ post).
Proof.
  induction 1 as [s | x g s H IH | x g s H IH]; simpl;
    [constructor | now apply subsequence_take | now apply subsequence_skip].
Qed.

Lemma squeeze_subsequence (g : pystr) : subsequence (squeeze g) g.
Proof.
  induction g as [|c g IH]; [constructor|].
  destruct g as [|d g]; [apply subsequence_refl|].
  change (squeeze (c :: d :: g))
    with (if PyStr.char_eqb c d then squeeze (d :: g) else c :: squeeze (d :: g)).
  destruct (PyStr.char_eqb c d);
    [now apply subsequence_skip | now apply subsequence_take].
Qed.

(** X2. A filter whose normalized characters occur in the lower-cased
    name in order, each at a place of its own, is accepted: the matcher
    is at least as permissive as the plain ordered-subsequence test. *)
Theorem matches_filter_plain_subsequence :
  forall (file_name filter_ : pystr),
    filter_ <> [] ->
    subsequence (normalize_filter filter_) (PyStr.lower file_name) ->
    matches_filter file_name (Some filter_) = true.
Proof.
  intros file_name [|c f] Hne Hsub; [congruence|].
  unfold matches_filter. apply filter_loop_subsequence.
  eapply subsequence_trans; [apply squeeze_subsequence | exact Hsub].
Qed.

Lemma matches_filter_plain_subsequence_witness :
  py "f a" <> []
  /\ subsequence (normalize_filter (py "f a")) (PyStr.lower (py "Fisa"))
  /\ matches_filter (py "Fisa") (Some (py "f a")) = true.
Proof.
  assert (subsequence (normalize_filter (py "f a")) (PyStr.lower (py "Fisa")))
    as Hsub.
  { change (subsequence (py "fa") (py "fisa")).
    apply subsequence_take. do 2 apply subsequence_skip.
    apply subsequence_take. constructor. }
  split; [discriminate|]. split; [exact Hsub|].
  apply (matches_filter_plain_subsequence (py "Fisa") (py "f a"));
    [discriminate | exact Hsub].
Defined.

Lemma contains_app (c : char) (s t : pystr) :
  PyStr.contains c (s ++ t) = false ->
  PyStr.contains c s = false /\ PyStr.contains c t = false.
Proof.
  unfold PyStr.contains. rewrite existsb_app. apply orb_false_iff.
Qed.

(** X3. A name that matches a non-empty filter still matches it when
    text is put in front of the name or after it, provided the longer
    name holds no capital sigma (the one character whose lower-casing
    depends on its neighbours). *)
Theorem matches_filter_longer_name :
  forall (file_name before after filter_ : pystr),
    filter_ <> [] ->
    PyStr.contains PyStr.CAPITAL_SIGMA (before ++ file_name ++ after) = false ->
    matches_filter file_name (Some filter_) = true ->
    matches_filter (before ++ file_name ++ after) (Some filter_) = true.
Proof.
  intros file_name before after [|c f] Hne Hfree H; [congruence|].
  unfold matches_filter in *.
  apply filter_loop_subsequence in H. apply filter_loop_subsequence.
  rewrite (lower_sigma_free _ Hfree).
  apply contains_app in Hfree as [_ Hfree].
  apply contains_app in Hfree as [Hname _].
  rewrite (lower_sigma_free _ Hname) in H.
  rewrite !map_app.
  apply subsequence_app_l, subsequence_app_r, H.
Qed.

Lemma matches_filter_longer_name_witness :
  py "nt" <> []
  /\ PyStr.contains PyStr.CAPITAL_SIGMA
       (py "old-" ++ py "notes" ++ py ".txt") = false
  /\ matches_filter (py "notes") (Some (py "nt")) = true
  /\ matches_filter (py "old-" ++ py "notes" ++ py ".txt") (Some (py "nt"))
     = true.
Proof.
  split; [discriminate|]. split; [reflexivity|]. split; [reflexivity|].
  apply (matches_filter_longer_name (py "notes") (py "old-") (py ".txt")
           (py "nt")); [discriminate | reflexivity | reflexivity].
Defined.

(** With a capital sigma the longer name can stop matching: "ΑΣ"
    lower-cases to "ας" and holds the final sigma, "ΑΣΒ" lower-cases to
    "ασβ" and does not. *)
Example longer_name_capital_sigma :
  matches_filter capital_alpha_sigma (Some [PyStr.FINAL_SIGMA]) = true
  /\ matches_filter (capital_alpha_sigma ++ [Greek "146"])
       (Some [PyStr.FINAL_SIGMA]) = false.
Proof. split; reflexivity. Qed.

(** ** Longer filters *)

Lemma lstrip_blank (s : pystr) :
  forallb PyStr.isspace s = true -> PyStr.lstrip s = [].
Proof.
  induction s as [|c s IH]; simpl; [reflexivity|].
  destruct (PyStr.isspace c); simpl; [exact IH | discriminate].
Qed.

Lemma lstrip_app (a b : pystr) :
  PyStr.lstrip (a ++ b) =
  if forallb PyStr.isspace a then PyStr.lstrip b else PyStr.lstrip a ++ b.
Proof.
  induction a as [|c a IH]; simpl; [reflexivity|].
  destruct (PyStr.isspace c); simpl; [exact IH | reflexivity].
Qed.

Lemma forallb_rev (A : Type) (g : A -> bool) (l : list A) :
  forallb g (rev l) = forallb g l.
Proof.
  induction l as [|x l IH]; simpl; [reflexivity|].
  rewrite forallb_app, IH. simpl. rewrite andb_true_r. apply andb_comm.
Qed.

Lemma rstrip_app (a b : pystr) :
  PyStr.rstrip (a ++ b) =
  if forallb PyStr.isspace b then PyStr.rstrip a else a ++ PyStr.rstrip b.
Proof.
  unfold PyStr.rstrip. rewrite rev_app_distr, lstrip_app, forallb_rev.
  destruct (forallb PyStr.isspace b); [reflexivity|].
  now rewrite rev_app_distr, rev_involutive.
Qed.

Lemma lstrip_suffix (s : pystr) : exists h, s = h ++ PyStr.lstrip s.
Proof.
  induction s as [|c s [h IH]]; simpl; [now exists []|].
  destruct (PyStr.isspace c); [|now exists []].
  exists (c :: h). simpl. now rewrite <- IH.
Qed.

Lemma rstrip_prefix (s : pystr) : exists t, s = PyStr.rstrip s ++ t.
Proof.
  unfold PyStr.rstrip. destruct (lstrip_suffix (rev s)) as [h E].
  exists (rev h). rewrite <- rev_app_distr, <- E. now rewrite rev_involutive.
Qed.

Lemma strip_app_prefix (a b : pystr) :
  exists t, PyStr.strip (a ++ b) = PyStr.strip a ++ t.
Proof.
  unfold PyStr.strip. rewrite lstrip_app.
  destruct (forallb PyStr.isspace a) eqn:E.
  - rewrite (lstrip_blank a E). now eexists.
  - rewrite rstrip_app. destruct (forallb PyStr.isspace b).
    + exists []. now rewrite app_nil_r.
    + destruct (rstrip_prefix (PyStr.lstrip a)) as [t Et].
      exists (t ++ PyStr.rstrip b). now rewrite app_assoc, <- Et.
Qed.

Lemma normalize_filter_app_prefix (f g : pystr) :
  PyStr.contains PyStr.CAPITAL_SIGMA (f ++ g) = false ->
  exists t, normalize_filter (f ++ g) = normalize_filter f ++ t.
Proof.
  intros Hfree. unfold normalize_filter.
  rewrite (lower_sigma_free _ Hfree).
  apply contains_app in Hfree as [Hf _].
  rewrite (lower_sigma_free _ Hf).
  unfold PyStr.remove_char.
  rewrite map_app, filter_app. apply strip_app_prefix.
Qed.

Lemma filter_loop_prefix (f1 f2 : pystr) :
  forall s, filter_loop s (f1 ++ f2) = true -> filter_loop s f1 = true.
Proof.
  induction f1 as [|c f1 IH]; intros s; simpl; [reflexivity|].
  destruct (PyStr.index s c); [apply IH | discriminate].
Qed.

(** X4. Typing on narrows the matches: a name accepted for a filter
    with more text appended is accepted for the non-empty filter
    itself, provided the longer filter holds no capital sigma. *)
Theorem matches_filter_narrows :
  forall (file_name filter_ more : pystr),
    filter_ <> [] ->
    PyStr.contains PyStr.CAPITAL_SIGMA (filter_ ++ more) = false ->
    matches_filter file_name (Some (filter_ ++ more)) = true ->
    matches_filter file_name (Some filter_) = true.
Proof.
  intros file_name [|c f] more Hne Hfree H; [congruence|].
  unfold matches_filter in *. simpl app in H.
  destruct (normalize_filter_app_prefix (c :: f) more Hfree) as [t Et].
  simpl app in Et. rewrite Et in H.
  eapply filter_loop_prefix, H.
Qed.

Lemma matches_filter_narrows_witness :
  py "no " <> []
  /\ PyStr.contains PyStr.CAPITAL_SIGMA (py "no " ++ py "T") = false
  /\ matches_filter (py "notes") (Some (py "no " ++ py "T")) = true
  /\ matches_filter (py "notes") (Some (py "no ")) = true.
Proof.
  split; [discriminate|]. split; [reflexivity|]. split; [reflexivity|].
  apply (matches_filter_narrows (py "notes") (py "no ") (py "T"));
    [discriminate | reflexivity | reflexivity].
Defined.

(** With a capital sigma the shorter filter can fail where the longer
    one matches: the name "ασβ" matches "ΑΣΒ" but not "ΑΣ". *)
Example narrows_capital_sigma :
  matches_filter (small_alpha_sigma ++ [Greek "178"])
    (Some (capital_alpha_sigma ++ [Greek "146"])) = true
  /\ matches_filter (small_alpha_sigma ++ [Greek "178"])
       (Some capital_alpha_sigma) = false.
Proof. split; reflexivity. Qed.

Lemma lower_char_isspace (c : char) :
  PyStr.isspace c = true -> PyStr.lower_char c = c.
Proof.
  destruct c as [[[] [] [] [] [] [] [] []] | low];
    [vm_compute; congruence .. | discriminate].
Qed.

Lemma blank_sigma_free (f : pystr) :
  Forall (fun c => PyStr.isspace c = true) f ->
  PyStr.contains PyStr.CAPITAL_SIGMA f = false.
Proof.
  induction 1 as [|c f Hc _ IH]; [reflexivity|].
  simpl. rewrite IH. destruct c as [low | low]; [reflexivity | discriminate].
Qed.

Lemma normalize_filter_blank (f : pystr) :
  Forall (fun c => PyStr.isspace c = true) f -> normalize_filter f = [].
Proof.
  intros H. unfold normalize_filter, PyStr.strip.
  rewrite (lower_sigma_free f (blank_sigma_free f H)).
  rewrite lstrip_blank; [reflexivity|].
  apply forallb_forall. intros c Hin.
  unfold PyStr.remove_char in Hin. apply filter_In in Hin as [Hin _].
  apply in_map_iff in Hin as (d & <- & Hd).
  rewrite Forall_forall in H.
  rewrite (lower_char_isspace d (H d Hd)). exact (H d Hd).
Qed.

(** X5. A non-empty filter made of whitespace only (spaces, tabs, line
    breaks) is matched by every name, hidden names included. *)
Theorem matches_filter_blank :
  forall (file_name filter_ : pystr),
    filter_ <> [] ->
    Forall (fun c => PyStr.isspace c = true) filter_ ->
    matches_filter file_name (Some filter_) = true.
Proof.
  intros file_name [|c f] Hne Hblank; [congruence|].
  unfold matches_filter. now rewrite (normalize_filter_blank _ Hblank).
Qed.

Lemma matches_filter_blank_witness :
  [Latin "009"; Latin " "] <> []
  /\ Forall (fun c => PyStr.isspace c = true) [Latin "009"; Latin " "]
  /\ matches_filter (py ".git") (Some [Latin "009"; Latin " "]) = true.
Proof.
  assert (Forall (fun c => PyStr.isspace c = true) [Latin "009"; Latin " "])
    as Hb by (repeat constructor).
  split; [discriminate|]. split; [exact Hb|].
  apply (matches_filter_blank (py ".git") [Latin "009"; Latin " "]);
    [discriminate | exact Hb].
Defined.

(** ** [get_icon_for_file] *)

Lemma startswith_app (s prefix : pystr) :
  PyStr.startswith s prefix = true <-> exists rest, s = prefix ++ rest.
Proof.
  revert s; induction prefix as [|p prefix IH]; intros s.
  - simpl. destruct s; (split; [intros _; eexists; reflexivity | reflexivity]).
  - destruct s as [|c s]; simpl.
    + split; [discriminate | intros [rest E]; discriminate].
    + rewrite andb_true_iff, char_eqb_true, IH. split.
      * intros [-> [rest ->]]. now exists rest.
      * intros [rest E]. injection E as -> ->. split; [reflexivity | now exists rest].
Qed.

Lemma endswith_app (s suffix : pystr) :
  PyStr.endswith s suffix = true <-> exists stem, s = stem ++ suffix.
Proof.
  unfold PyStr.endswith. rewrite startswith_app. split.
  - intros [rest E]. exists (rev rest).
    rewrite <- (rev_involutive s), E, rev_app_distr. now rewrite rev_involutive.
  - intros [stem ->]. exists (rev stem). apply rev_app_distr.
Qed.

(** X6. A path whose name ends in .png, .jpg or .jpeg, in any mix of
    upper and lower case, is its own icon: the theme is not consulted
    and it makes no difference whether the path is a directory. *)
Theorem get_icon_for_file_image :
  forall (host : Host) (path : Path) (stem extension : pystr),
    In extension IMAGE_EXTENSIONS ->
    PyStr.lower (name path) = stem ++ extension ->
    get_icon_for_file host path = str path.
Proof.
  intros host path stem extension Hin Hname. unfold get_icon_for_file.
  replace (existsb (PyStr.endswith (PyStr.lower (name path))) IMAGE_EXTENSIONS)
    with true; [reflexivity|].
  symmetry. apply existsb_exists. exists extension. split; [exact Hin|].
  apply endswith_app. now exists stem.
Qed.

Lemma get_icon_for_file_image_witness :
  In (py ".jpg") IMAGE_EXTENSIONS
  /\ PyStr.lower (name (make (py "/home/u/docs/Cat.JPG"))) =
     py "cat" ++ py ".jpg"
  /\ get_icon_for_file demo_host (make (py "/home/u/docs/Cat.JPG")) =
     str (make (py "/home/u/docs/Cat.JPG")).
Proof.
  assert (In (py ".jpg") IMAGE_EXTENSIONS) as Hin by (right; left; reflexivity).
  split; [exact Hin|]. split; [reflexivity|].
  apply (get_icon_for_file_image demo_host (make (py "/home/u/docs/Cat.JPG"))
           (py "cat") (py ".jpg") Hin).
  reflexivity.
Defined.

(** ** Preferences *)

Lemma dict_get_set_same (d : preferences) (k v : pystr) :
  dict_get (dict_set d k v) k = Some v.
Proof.
  induction d as [|[k' v'] d IH]; simpl.
  - replace (PyStr.eqb k k) with true by (symmetry; now apply pystr_eqb_eq).
    reflexivity.
  - destruct (PyStr.eqb k' k) eqn:E; simpl; rewrite E; [reflexivity | exact IH].
Qed.

Lemma dict_get_set_other (d : preferences) (k k0 v : pystr) :
  k0 <> k -> dict_get (dict_set d k v) k0 = dict_get d k0.
Proof.
  intros N. induction d as [|[k' v'] d IH]; simpl.
  - destruct (PyStr.eqb k k0) eqn:E; [|reflexivity].
    apply pystr_eqb_eq in E. congruence.
  - destruct (PyStr.eqb k' k) eqn:E; simpl.
    + apply pystr_eqb_eq in E; subst k'.
      destruct (PyStr.eqb k k0) eqn:E0; [|reflexivity].
      apply pystr_eqb_eq in E0. congruence.
    + now rewrite IH.
Qed.

(** X7. After an update event the preference named by the event has
    the event's new value, and every other preference reads as it did
    before, absent ones included. *)
Theorem preferences_update_lookup :
  forall (prefs : preferences) (id old_value new_value : pystr),
    let prefs' :=
      PreferencesEventListener.on_event
        (PreferencesUpdateEvent id old_value new_value) prefs in
    dict_get prefs' id = Some new_value
    /\ forall key, key <> id -> dict_get prefs' key = dict_get prefs key.
Proof.
  intros prefs id old_value new_value. simpl. split.
  - apply dict_get_set_same.
  - intros key N. now apply dict_get_set_other.
Qed.

(** The handler reads three preferences and nothing else. *)
Lemma on_event_preferences host event (prefs prefs' : preferences) :
  dict_get prefs' (py "fb_default_path") = dict_get prefs (py "fb_default_path") ->
  dict_get prefs' (py "fb_items_limit") = dict_get prefs (py "fb_items_limit") ->
  dict_get prefs' (py "fb_show_hidden") = dict_get prefs (py "fb_show_hidden") ->
  on_event host event prefs' = on_event host event prefs.
Proof.
  intros Hd Hl Hs.
  unfold on_event, parse_query, path_and_filter, items_limit, show_hidden.
  now rewrite Hd, Hl, Hs.
Qed.

(** X8. An update of a preference other than fb_default_path,
    fb_items_limit and fb_show_hidden leaves the answer to every query
    as it was. *)
Theorem on_event_other_preference :
  forall (host : Host) (event : KeywordQueryEvent) (prefs : preferences)
         (id old_value new_value : pystr),
    id <> py "fb_default_path" ->
    id <> py "fb_items_limit" ->
    id <> py "fb_show_hidden" ->
    on_event host event
      (PreferencesEventListener.on_event
         (PreferencesUpdateEvent id old_value new_value) prefs) =
    on_event host event prefs.
Proof.
  intros host event prefs id old_value new_value N1 N2 N3. simpl.
  apply on_event_preferences; apply dict_get_set_other; congruence.
Qed.

Lemma on_event_other_preference_witness :
  py "theme" <> py "fb_default_path"
  /\ py "theme" <> py "fb_items_limit"
  /\ py "theme" <> py "fb_show_hidden"
  /\ on_event demo_host (demo_event None)
       (PreferencesEventListener.on_event
          (PreferencesUpdateEvent (py "theme") (py "light") (py "dark"))
          demo_prefs) =
     on_event demo_host (demo_event None) demo_prefs.
Proof.
  split; [discriminate|]. split; [discriminate|]. split; [discriminate|].
  apply (on_event_other_preference demo_host (demo_event None) demo_prefs
           (py "theme") (py "light") (py "dark")); discriminate.
Defined.

Lemma preferences_after_app events1 events2 prefs :
  preferences_after (events1 ++ events2) prefs =
  preferences_after events2 (preferences_after events1 prefs).
Proof. unfold preferences_after. apply fold_left_app. Qed.

Lemma preferences_after_untouched events key :
  Forall (fun event => touches key event = false) events ->
  forall prefs,
    dict_get (preferences_after events prefs) key = dict_get prefs key.
Proof.
  induction 1 as [|event events He _ IH]; intros prefs; [reflexivity|].
  change (preferences_after (event :: events) prefs)
    with (preferences_after events
            (PreferencesEventListener.on_event event prefs)).
  rewrite IH. destruct event as [p | id old new]; simpl in *; [discriminate|].
  apply dict_get_set_other. intros ->.
  assert (PyStr.eqb id id = true) as R by now apply pystr_eqb_eq.
  congruence.
Qed.

(** X9. After a run of preference events a preference reads as the last
    event that touched it left it: the new value of an update of that
    key, or what the dict of a full [PreferencesEvent] holds for it
    (nothing, when that dict lacks the key), whatever came before. *)
Theorem preferences_last_event_wins :
  forall (before after : list preferences_event) (prefs : preferences)
         (key : pystr),
    Forall (fun event => touches key event = false) after ->
    (forall old_value new_value,
        dict_get
          (preferences_after
             (before ++ PreferencesUpdateEvent key old_value new_value :: after)
             prefs) key = Some new_value)
    /\ (forall event_preferences,
           dict_get
             (preferences_after
                (before ++ PreferencesEvent event_preferences :: after) prefs)
             key = dict_get event_preferences key).
Proof.
  intros before after prefs key Hafter. split.
  - intros old_value new_value.
    rewrite preferences_after_app.
    change (preferences_after (PreferencesUpdateEvent key old_value new_value :: after)
              (preferences_after before prefs))
      with (preferences_after after
              (dict_set (preferences_after before prefs) key new_value)).
    rewrite preferences_after_untouched by exact Hafter.
    apply dict_get_set_same.
  - intros event_preferences.
    rewrite preferences_after_app.
    change (preferences_after (PreferencesEvent event_preferences :: after)
              (preferences_after before prefs))
      with (preferences_after after event_preferences).
    now apply preferences_after_untouched.
Qed.

Lemma preferences_last_event_wins_witness :
  Forall (fun event => touches (py "fb_items_limit") event = false)
    [PreferencesUpdateEvent (py "fb_show_hidden") (py "No") (py "Yes")]
  /\ dict_get
       (preferences_after
          ([PreferencesEvent demo_prefs]
           ++ PreferencesUpdateEvent (py "fb_items_limit") (py "2") (py "7")
           :: [PreferencesUpdateEvent (py "fb_show_hidden") (py "No") (py "Yes")])
          initial_preferences) (py "fb_items_limit") = Some (py "7").
Proof.
  assert (Forall (fun event => touches (py "fb_items_limit") event = false)
            [PreferencesUpdateEvent (py "fb_show_hidden") (py "No") (py "Yes")])
    as Hafter by (repeat constructor).
  split; [exact Hafter|].
  apply (proj1 (preferences_last_event_wins [PreferencesEvent demo_prefs]
                  [PreferencesUpdateEvent (py "fb_show_hidden") (py "No") (py "Yes")]
                  initial_preferences (py "fb_items_limit") Hafter)).
Defined.

(** ** Failures of the handler *)

(** X10. Without a configured fb_default_path (as in a fresh extension,
    before any preferences arrived) a query with no argument, or with an
    argument that has no '/', ends in [TypeError], whatever the host. *)
Theorem on_event_missing_default_path :
  forall (host : Host) (event : KeywordQueryEvent) (prefs : preferences),
    dict_get prefs (py "fb_default_path") = None ->
    get_argument event = None
    \/ PyStr.contains "/" (text (get_argument event)) = false ->
    on_event host event prefs = Raised TypeError.
Proof.
  intros host event prefs Hd Harg. unfold on_event, parse_query.
  rewrite path_and_filter_default by exact Harg. now rewrite Hd.
Qed.

Lemma on_event_missing_default_path_witness :
  dict_get initial_preferences (py "fb_default_path") = None
  /\ (get_argument (demo_event (Some (py "notes"))) = None
      \/ PyStr.contains "/" (text (get_argument (demo_event (Some (py "notes")))))
         = false)
  /\ on_event demo_host (demo_event (Some (py "notes"))) initial_preferences =
     Raised TypeError.
Proof.
  split; [reflexivity|]. split; [right; reflexivity|].
  apply (on_event_missing_default_path demo_host
           (demo_event (Some (py "notes"))) initial_preferences);
    [reflexivity | right; reflexivity].
Defined.

(** X11. When the path of the query starts with a '~' component that
    the system cannot resolve to a home directory, the handler ends in
    [RuntimeError]; the directory is not listed. *)
Theorem on_event_unknown_home :
  forall (host : Host) (event : KeywordQueryEvent) (prefs : preferences)
         (p : Path) (f : option pystr) (first : pystr) (rest : list pystr),
    path_and_filter (get_argument event) prefs = Returned (p, f) ->
    root p = [] ->
    tail p = first :: rest ->
    PyStr.startswith first (py "~") = true ->
    PyStr.startswith (os_expanduser host first) (py "~") = true ->
    on_event host event prefs = Raised RuntimeError.
Proof.
  intros host event prefs p f first rest Hp Hr Ht Hf Hh.
  unfold on_event, parse_query. rewrite Hp. simpl.
  unfold expanduser. now rewrite Hr, Ht, Hf, Hh.
Qed.

Lemma on_event_unknown_home_witness :
  path_and_filter (get_argument (demo_event (Some (py "~nobody/x")))) demo_prefs
    = Returned (make (py "~nobody"), Some (py "x"))
  /\ root (make (py "~nobody")) = []
  /\ tail (make (py "~nobody")) = py "~nobody" :: []
  /\ PyStr.startswith (py "~nobody") (py "~") = true
  /\ PyStr.startswith (os_expanduser demo_host (py "~nobody")) (py "~") = true
  /\ on_event demo_host (demo_event (Some (py "~nobody/x"))) demo_prefs =
     Raised RuntimeError.
Proof.
  repeat (split; [reflexivity|]).
  apply (on_event_unknown_home demo_host (demo_event (Some (py "~nobody/x")))
           demo_prefs (make (py "~nobody")) (Some (py "x")) (py "~nobody") []);
    reflexivity.
Defined.

(** X12. An argument that is a '/' followed by text without a further
    '/' (as in "/etc") does not name the root: the fields before the
    last '/' join to the empty text, so the base path is the relative
    path "." and the text is the filter. *)
Theorem parse_query_leading_separator :
  forall (host : Host) (prefs : preferences) (f : pystr),
    PyStr.contains "/" f = false ->
    exists base,
      parse_query host (Some (Latin "/" :: f)) prefs = Returned (base, Some f)
      /\ str base = py "."
      /\ is_absolute base = false.
Proof.
  intros host prefs f Hf. exists (make []).
  split; [|split; reflexivity].
  unfold parse_query.
  rewrite path_and_filter_separator by reflexivity.
  simpl PyStr.split. rewrite (split_clean "/" f Hf). reflexivity.
Qed.

Lemma parse_query_leading_separator_witness :
  PyStr.contains "/" (py "etc") = false
  /\ exists base,
      parse_query demo_host (Some (py "/etc")) demo_prefs =
        Returned (base, Some (py "etc"))
      /\ str base = py "."
      /\ is_absolute base = false.
Proof.
  split; [reflexivity|].
  apply (parse_query_leading_separator demo_host demo_prefs (py "etc")).
  reflexivity.
Defined.

(** ** What is listed *)

(** The list of the handler: the synthetic items, then the items of a
    front part of the passing children. *)
Lemma on_event_listing host event prefs base f children :
  parse_query host (get_argument event) prefs = Returned (base, f) ->
  iterdir host base = Returned children ->
  exists entries k,
    on_event host event prefs =
      Returned (synthetic_items host base f
                ++ map (child_item host (get_keyword event)) entries)
    /\ entries = firstn k (passing host prefs f children).
Proof.
  intros Hp Hi.
  destruct (children_loop_entries host (get_keyword event) prefs f children)
    as (entries & Hloop & _ & _ & k & Hk).
  exists entries, k. split; [|exact Hk].
  now rewrite (on_event_returns _ _ _ _ _ _ Hp Hi), Hloop.
Qed.

Lemma firstn_In (A : Type) (k : nat) (l : list A) (x : A) :
  In x (firstn k l) -> In x l.
Proof.
  intros H. rewrite <- (firstn_skipn k l). apply in_or_app. now left.
Qed.

Lemma show_hidden_yes (prefs : preferences) :
  show_hidden prefs = true <->
  dict_get prefs (py "fb_show_hidden") = Some (py "Yes").
Proof.
  unfold show_hidden. destruct (dict_get prefs (py "fb_show_hidden")) as [v|].
  - rewrite pystr_eqb_eq. split; congruence.
  - split; discriminate.
Qed.

(** X13. Every listed entry matches the filter, and an entry whose name
    starts with '.' is listed only when fb_show_hidden is exactly "Yes"
    and the filter is not empty: with an empty or absent filter hidden
    entries stay out even when fb_show_hidden is "Yes". *)
Theorem on_event_hidden_entries :
  forall (host : Host) (event : KeywordQueryEvent) (prefs : preferences)
         (base : Path) (f : option pystr) (children : list Path),
    parse_query host (get_argument event) prefs = Returned (base, f) ->
    iterdir host base = Returned children ->
    exists entries : list Path,
      on_event host event prefs =
        Returned (synthetic_items host base f
                  ++ map (child_item host (get_keyword event)) entries)
      /\ Forall (fun child_path =>
                   matches_filter (name child_path) f = true
                   /\ (PyStr.startswith (name child_path) (py ".") = true ->
                       dict_get prefs (py "fb_show_hidden") = Some (py "Yes")
                       /\ truthy f = true))
           entries.
Proof.
  intros host event prefs base f children Hp Hi.
  destruct (on_event_listing host event prefs base f children Hp Hi)
    as (entries & k & Hev & Hk).
  exists entries. split; [exact Hev|].
  apply Forall_forall. intros p Hin. rewrite Hk in Hin.
  apply firstn_In in Hin. unfold passing in Hin.
  apply filter_In in Hin as [_ Hpass]. unfold passes in Hpass.
  apply andb_true_iff in Hpass as [Hvis Hmatch].
  split; [exact Hmatch|]. intros Hdot. rewrite Hdot in Hvis. simpl in Hvis.
  rewrite orb_false_r in Hvis. split; [now apply show_hidden_yes|].
  destruct f as [[|c f]|]; [|reflexivity|];
    unfold matches_filter in Hmatch; rewrite Hdot in Hmatch; discriminate.
Qed.

Lemma on_event_hidden_entries_witness :
  parse_query demo_host (get_argument (demo_event (Some (py "/home/u/"))))
    [(py "fb_show_hidden", py "Yes")] =
    Returned (make (py "/home/u"), Some (py ""))
  /\ iterdir demo_host (make (py "/home/u")) =
     Returned (map (child (make (py "/home/u")))
                 [py "notes"; py "docs"; py "a.png"; py ".git"; py "Zed"])
  /\ exists entries : list Path,
      on_event demo_host (demo_event (Some (py "/home/u/")))
        [(py "fb_show_hidden", py "Yes")] =
        Returned (synthetic_items demo_host (make (py "/home/u")) (Some (py ""))
                  ++ map (child_item demo_host (py "f")) entries)
      /\ Forall (fun child_path =>
                   PyStr.startswith (name child_path) (py ".") = true ->
                   truthy (Some (py "")) = true)
           entries.
Proof.
  split; [reflexivity|]. split; [reflexivity|].
  destruct (on_event_hidden_entries demo_host
              (demo_event (Some (py "/home/u/")))
              [(py "fb_show_hidden", py "Yes")]
              (make (py "/home/u")) (Some (py ""))
              (map (child (make (py "/home/u")))
                 [py "notes"; py "docs"; py "a.png"; py ".git"; py "Zed"])
              eq_refl eq_refl)
    as (entries & Hev & Hall).
  exists entries. split; [exact Hev|].
  eapply Forall_impl; [|exact Hall].
  intros p [_ H] Hdot. exact (proj2 (H Hdot)).
Defined.

Lemma child_injective (base : Path) (n m : pystr) :
  child base n = child base m -> n = m.
Proof.
  intros E. rewrite <- (name_child base n), <- (name_child base m).
  now rewrite E.
Qed.

Lemma NoDup_map_child (base : Path) (names : list pystr) :
  NoDup names -> NoDup (map (child base) names).
Proof.
  induction 1 as [|n names Hn _ IH]; simpl; constructor; [|exact IH].
  intros Hin. apply in_map_iff in Hin as (m & E & Hm).
  apply child_injective in E. now subst m.
Qed.

Lemma NoDup_firstn (A : Type) (k : nat) (l : list A) :
  NoDup l -> NoDup (firstn k l).
Proof.
  intros H. rewrite <- (firstn_skipn k l) in H.
  eapply NoDup_app_remove_r, H.
Qed.

(** X14. When the names in the directory are distinct, no entry is
    listed twice, and never more entries are listed than the directory
    holds. *)
Theorem on_event_no_duplicates :
  forall (host : Host) (event : KeywordQueryEvent) (prefs : preferences)
         (base : Path) (f : option pystr) (names : list pystr),
    parse_query host (get_argument event) prefs = Returned (base, f) ->
    listdir host base = Returned names ->
    NoDup names ->
    exists entries : list Path,
      on_event host event prefs =
        Returned (synthetic_items host base f
                  ++ map (child_item host (get_keyword event)) entries)
      /\ NoDup entries
      /\ List.length entries <= List.length names.
Proof.
  intros host event prefs base f names Hp Hl Hnd.
  assert (iterdir host base = Returned (map (child base) names)) as Hi
    by (rewrite iterdir_listdir; now rewrite Hl).
  destruct (on_event_listing host event prefs base f _ Hp Hi)
    as (entries & k & Hev & Hk).
  exists entries. split; [exact Hev|]. rewrite Hk. split.
  - apply NoDup_firstn, NoDup_filter.
    eapply Permutation_NoDup; [apply sorted_perm|].
    apply NoDup_map_child, Hnd.
  - rewrite length_firstn. etransitivity; [apply Nat.le_min_r|].
    unfold passing. etransitivity; [apply filter_length_le|].
    rewrite <- (Permutation_length (sorted_perm (child_key host) _)).
    now rewrite length_map.
Qed.

Lemma on_event_no_duplicates_witness :
  parse_query demo_host (get_argument (demo_event None)) demo_prefs =
    Returned (make (py "/home/u"), None)
  /\ listdir demo_host (make (py "/home/u")) =
     Returned [py "notes"; py "docs"; py "a.png"; py ".git"; py "Zed"]
  /\ NoDup [py "notes"; py "docs"; py "a.png"; py ".git"; py "Zed"]
  /\ exists entries : list Path,
      on_event demo_host (demo_event None) demo_prefs =
        Returned (synthetic_items demo_host (make (py "/home/u")) None
                  ++ map (child_item demo_host (py "f")) entries)
      /\ NoDup entries
      /\ List.length entries <= 5.
Proof.
  assert (NoDup [py "notes"; py "docs"; py "a.png"; py ".git"; py "Zed"])
    as Hnd.
  { repeat constructor; simpl; intros H;
      repeat (destruct H as [H | H]; [discriminate H|]); exact H. }
  split; [reflexivity|]. split; [reflexivity|]. split; [exact Hnd|].
  apply (on_event_no_duplicates demo_host (demo_event None) demo_prefs
           (make (py "/home/u")) None
           [py "notes"; py "docs"; py "a.png"; py ".git"; py "Zed"]
           eq_refl eq_refl Hnd).
Defined.



(** X16. The order of the listing is case-sensitive: among the
    directories, and among the files, an entry whose name starts with
    an upper-case ASCII letter comes before every entry whose name
    starts with a lower-case one. *)
Theorem on_event_upper_case_first :
  forall (host : Host) (event : KeywordQueryEvent) (prefs : preferences)
         (base : Path) (f : option pystr) (children : list Path),
    parse_query host (get_argument event) prefs = Returned (base, f) ->
    iterdir host base = Returned children ->
    exists entries : list Path,
      on_event host event prefs =
        Returned (synthetic_items host base f
                  ++ map (child_item host (get_keyword event)) entries)
      /\ forall i j a b ca cb ra rb,
          nth_error entries i = Some a -> nth_error entries j = Some b ->
          is_dir host a = is_dir host b ->
          name a = ca :: ra -> name b = cb :: rb ->
          65 <= PyStr.code ca <= 90 -> 97 <= PyStr.code cb <= 122 ->
          i < j.
Proof.
  intros host event prefs base f children Hp Hi.
  destruct (on_event_listing host event prefs base f children Hp Hi)
    as (entries & k & Hev & Hk).
  exists entries. split; [exact Hev|].
  intros i j a b ca cb ra rb Ha Hb Hd Hna Hnb Hca Hcb.
  assert (StronglySorted (le_by (child_key host)) entries) as Hsorted
    by (rewrite Hk; apply passing_sorted).
  assert (PyStr.compare (name a) (name b) = Lt) as Hlt.
  { rewrite Hna, Hnb. simpl.
    destruct (Nat.compare_spec (PyStr.code ca) (PyStr.code cb)); [lia | reflexivity | lia]. }
  destruct (Nat.lt_total i j) as [Hij | [Heq | Hji]]; [exact Hij | |].
  - subst j. rewrite Ha in Hb. injection Hb as <-.
    rewrite compare_refl in Hlt. discriminate.
  - pose proof (strongly_sorted_nth (child_key host) entries j i b a
                  Hsorted Hji Hb Ha) as Hle.
    apply key_le_spec in Hle. unfold child_key, key_compare in Hle.
    simpl in Hle. rewrite Hd in Hle.
    rewrite (compare_flip (name a) (name b)), Hlt in Hle.
    destruct (is_dir host b); simpl in Hle; congruence.
Qed.

Lemma on_event_upper_case_first_witness :
  parse_query demo_host (get_argument (demo_event (Some (py "/home/u/"))))
    [] = Returned (make (py "/home/u"), Some (py ""))
  /\ iterdir demo_host (make (py "/home/u")) =
     Returned (map (child (make (py "/home/u")))
                 [py "notes"; py "docs"; py "a.png"; py ".git"; py "Zed"])
  /\ exists entries : list Path,
      on_event demo_host (demo_event (Some (py "/home/u/"))) [] =
        Returned (synthetic_items demo_host (make (py "/home/u")) (Some (py ""))
                  ++ map (child_item demo_host (py "f")) entries).
Proof.
  split; [reflexivity|]. split; [reflexivity|].
  destruct (on_event_upper_case_first demo_host
              (demo_event (Some (py "/home/u/"))) []
              (make (py "/home/u")) (Some (py ""))
              (map (child (make (py "/home/u")))
                 [py "notes"; py "docs"; py "a.png"; py ".git"; py "Zed"])
              eq_refl eq_refl)
    as (entries & Hev & _).
  exists entries. exact Hev.
Defined.

Example upper_case_first_demo :
  on_event demo_host (demo_event (Some (py "/home/u/"))) [] =
  Returned
    [open_folder_item demo_host (make (py "/home/u"));
     child_item demo_host (py "f") (make (py "/home/u/docs"));
     child_item demo_host (py "f") (make (py "/home/u/Zed"));
     child_item demo_host (py "f") (make (py "/home/u/a.png"));
     child_item demo_host (py "f") (make (py "/home/u/notes"))].
Proof. reflexivity. Qed.
